(** * crm_ub: hierarchical access control, record lifecycles and audit trail

    A shallow embedding of the policy core of the CRM backend:
    - [app/models/user.py]            organizational units, users, unit access
    - [app/utils/access_control.py]   per-record capability checks
    - [app/utils/query_filters.py]    bulk scoping of queries
    - [app/models/opportunity.py]     deal pipeline
    - [app/models/customer.py]        customer funnel and qualification score
    - [app/models/activity.py]        task status
    - [app/models/audit.py], [app/utils/decorators.py]  audit trail

    Conventions.  Integer columns are [Z]; nullable columns and Python
    attributes that may hold [None] are [option]; a table or a query is the
    list of its rows; [datetime] values are instants counted in seconds.
    A money attribute holds a Python number: an [int], a [float] (binary64)
    or a [decimal.Decimal], the type a [Numeric] column loads as.  The ambient
    [flask_login.current_user] and [datetime.utcnow()] are explicit
    parameters.  Code that can raise returns a [result]. *)

From Stdlib Require Import ZArith List Bool Ascii String Lia QArith DecimalString.
From Stdlib Require Import Floats.
Import ListNotations.
Open Scope Z_scope.

(** ** Python values: exceptions and truthiness *)

Module Py.

(** The exception classes the modelled code can meet.  [is_exception] tells
    whether the class derives from [Exception] (what [except Exception]
    catches) or only from [BaseException]. *)
Record exn := mk_exn {
  exn_class : string;
  exn_str : string;            (* str(e) *)
  is_exception : bool
}.

Definition RecursionError : exn :=
  mk_exn "RecursionError" "maximum recursion depth exceeded" true.
Definition AttributeError (msg : string) : exn :=
  mk_exn "AttributeError" msg true.

Inductive result (A : Type) : Type :=
| Ok (a : A)
| Raise (e : exn).
Arguments Ok {A} a.
Arguments Raise {A} e.

Definition bind {A B} (m : result A) (k : A -> result B) : result B :=
  match m with
  | Ok a => k a
  | Raise e => Raise e
  end.

(** Truthiness, as [if x:] tests it. *)
Definition truthy_str (s : option string) : bool :=
  match s with
  | Some EmptyString => false
  | Some _ => true
  | None => false
  end.

Definition truthy_int (n : option Z) : bool :=
  match n with
  | Some n => negb (n =? 0)
  | None => false
  end.

Definition truthy_num (q : option Q) : bool :=
  match q with
  | Some q => negb (Qnum q =? 0)
  | None => false
  end.

(** [a or b] on optional integers. *)
Definition or_int (a b : option Z) : option Z :=
  if truthy_int a then a else b.

(** *** Numbers

    The three numeric types the money attributes meet.  A [Numeric] column
    loads as [decimal.Decimal]; a form field read with [type=float] and
    the literals of [app.py] are [float] and [int]. *)
Inductive number :=
| PyInt (n : Z)
| PyFloat (x : float)
| PyDecimal (q : Q).

Definition TypeError (msg : string) : exn := mk_exn "TypeError" msg true.
Definition OverflowError (msg : string) : exn := mk_exn "OverflowError" msg true.
Definition ZeroDivisionError (msg : string) : exn :=
  mk_exn "ZeroDivisionError" msg true.

(** Truthiness of a number: zero of any type is false. *)
Definition truthy_number (a : option number) : bool :=
  match a with
  | Some (PyInt n) => negb (n =? 0)
  | Some (PyFloat x) => negb (PrimFloat.eqb x PrimFloat.zero)
  | Some (PyDecimal q) => negb (Qnum q =? 0)
  | None => false
  end.

(** An integer as a floating-point datum with no rounding yet. *)
Definition exact_int (n : Z) : spec_float :=
  match n with
  | Z0 => S754_zero false
  | Zpos m => S754_finite false m 0
  | Zneg m => S754_finite true m 0
  end.

(** A rounded result as a [float], or [OverflowError] when it is out of
    range. *)
Definition finite_or_overflow (msg : string) (r : spec_float) : result float :=
  match r with
  | S754_infinity _ => Raise (OverflowError msg)
  | _ => Ok (SF2Prim r)
  end.

(** [float(n)]: the nearest binary64, ties to even. *)
Definition float_of_int (n : Z) : result float :=
  finite_or_overflow "int too large to convert to float"
    (binary_normalize prec emax n 0 false).

(** [a / b] on two [int]s: the quotient rounded once to binary64. *)
Definition int_true_div (a b : Z) : result float :=
  if b =? 0 then Raise (ZeroDivisionError "division by zero")
  else finite_or_overflow "integer division result too large for a float"
         (SFdiv prec emax (exact_int a) (exact_int b)).

(** [a * x] with a [float] right operand: an [int] is converted, a [float]
    multiplied, and [Decimal] does not mix with [float]. *)
Definition mul_float (a : number) (x : float) : result number :=
  match a with
  | PyInt n =>
      match float_of_int n with
      | Ok y => Ok (PyFloat (PrimFloat.mul y x))
      | Raise e => Raise e
      end
  | PyFloat y => Ok (PyFloat (PrimFloat.mul y x))
  | PyDecimal _ =>
      Raise (TypeError
               "unsupported operand type(s) for *: 'decimal.Decimal' and 'float'")
  end.

End Py.
Import Py.

Notation "x <- m ;; k" := (Py.bind m (fun x => k))
  (at level 61, m at next level, right associativity).

(** ** app/models/user.py *)

Inductive AccessLevel := EXECUTIVE | REGIONAL | BRANCH | INDIVIDUAL.

(** [AccessLevel.value] *)
Definition level_value (l : AccessLevel) : Z :=
  match l with
  | EXECUTIVE => 1
  | REGIONAL => 2
  | BRANCH => 3
  | INDIVIDUAL => 4
  end.

Definition level_eqb (a b : AccessLevel) : bool :=
  level_value a =? level_value b.

Record OrganizationalUnit := mk_unit {
  unit_id : Z;
  unit_name : string;
  unit_parent_id : option Z
}.

Record User := mk_user {
  user_id : Z;
  username : string;
  access_level : AccessLevel;
  organizational_unit_id : Z;
  user_is_active : bool;
  is_authenticated : bool      (* the property [UserMixin] provides *)
}.

(** [flask_login.current_user]: the anonymous user or a loaded [User]. *)
Inductive CurrentUser :=
| AnonymousUser
| LoggedIn (u : User).

Definition authenticated (cu : CurrentUser) : bool :=
  match cu with
  | AnonymousUser => false
  | LoggedIn u => is_authenticated u
  end.

(** The [organizational_units] table. *)
Definition UnitTable := list OrganizationalUnit.

Definition opt_eqb (o : option Z) (k : Z) : bool :=
  match o with
  | Some v => v =? k
  | None => false
  end.

(** [OrganizationalUnit.query.get(k)]; also the many-to-one relationship
    [User.organizational_unit]. *)
Definition query_get (db : UnitTable) (k : Z) : option OrganizationalUnit :=
  find (fun r => unit_id r =? k) db.

(** The [children] backref: the rows whose [parent_id] is this unit. *)
Definition children (db : UnitTable) (self : OrganizationalUnit)
  : list OrganizationalUnit :=
  filter (fun r => opt_eqb (unit_parent_id r) (unit_id self)) db.

(** The loop body of [get_all_children]: append the child, then extend with
    the child's own result. *)
Fixpoint extend_each (rec : OrganizationalUnit -> result (list OrganizationalUnit))
    (cs : list OrganizationalUnit) : result (list OrganizationalUnit) :=
  match cs with
  | [] => Ok []
  | child :: rest =>
      sub <- rec child ;;
      tl <- extend_each rec rest ;;
      Ok (child :: sub ++ tl)
  end.

(** [OrganizationalUnit.get_all_children].  [depth] is the number of stack
    frames left before the interpreter raises [RecursionError]. *)
Fixpoint get_all_children (depth : nat) (db : UnitTable)
    (self : OrganizationalUnit) : result (list OrganizationalUnit) :=
  match depth with
  | O => Raise RecursionError
  | S depth' => extend_each (get_all_children depth' db) (children db self)
  end.

(** [target_unit in children]: mapped rows are compared by identity, one
    object per primary key. *)
Definition unit_in (target : OrganizationalUnit)
    (l : list OrganizationalUnit) : bool :=
  existsb (fun c => unit_id c =? unit_id target) l.

Definition is_regional_or_branch (l : AccessLevel) : bool :=
  level_eqb l REGIONAL || level_eqb l BRANCH.

(** [User.can_access_organizational_unit] *)
Definition can_access_organizational_unit (depth : nat) (db : UnitTable)
    (self : User) (org_unit_id : Z) : result bool :=
  if level_eqb (access_level self) EXECUTIVE then Ok true
  else if organizational_unit_id self =? org_unit_id then Ok true
  else if is_regional_or_branch (access_level self) then
    match query_get db org_unit_id with
    | Some target_unit =>
        match query_get db (organizational_unit_id self) with
        | Some own_unit =>
            cs <- get_all_children depth db own_unit ;;
            Ok (unit_in target_unit cs)
        | None =>
            Raise (AttributeError
                     "'NoneType' object has no attribute 'get_all_children'")
        end
    | None => Ok false
    end
  else Ok false.

(** [User.get_accessible_organizational_units]; for EXECUTIVE it is the whole
    table.  The relationship [self.organizational_unit] is [None] when the
    row is missing, and the list then holds that [None]. *)
Definition get_accessible_organizational_units (depth : nat) (db : UnitTable)
    (self : User) : result (list (option OrganizationalUnit)) :=
  if level_eqb (access_level self) EXECUTIVE then Ok (map Some db)
  else
    let own := query_get db (organizational_unit_id self) in
    if is_regional_or_branch (access_level self) then
      match own with
      | Some own_unit =>
          cs <- get_all_children depth db own_unit ;;
          Ok (own :: map Some cs)
      | None =>
          Raise (AttributeError
                   "'NoneType' object has no attribute 'get_all_children'")
      end
    else Ok [own].

(** The many-to-one relationship [OrganizationalUnit.parent]: [None] when
    [parent_id] is null or names no row. *)
Definition parent (db : UnitTable) (self : OrganizationalUnit)
  : option OrganizationalUnit :=
  match unit_parent_id self with
  | Some p => query_get db p
  | None => None
  end.

(** The [while current:] loop of [get_hierarchy_path]; [steps] bounds the
    iterations, and [None] stands for a loop still running after them. *)
Fixpoint climb (steps : nat) (db : UnitTable)
    (current : option OrganizationalUnit) (path : list OrganizationalUnit)
  : option (list OrganizationalUnit) :=
  match current with
  | None => Some path
  | Some c =>
      match steps with
      | O => None
      | S steps' => climb steps' db (parent db c) (c :: path)
      end
  end.

(** [OrganizationalUnit.get_hierarchy_path] *)
Definition get_hierarchy_path (steps : nat) (db : UnitTable)
    (self : OrganizationalUnit) : option (list OrganizationalUnit) :=
  climb steps db (parent db self) [self].

(** ** app/models/opportunity.py *)

Module Opportunity.

Inductive OpportunityStage :=
| IDENTIFICATION | QUALIFICATION | PROPOSAL | NEGOTIATION | CLOSING
| WON | LOST | POST_SALE.

Inductive LostReason :=
| PRICE | COMPETITOR | NO_RESPONSE | TIMING | NO_NEED | CREDIT_REJECTED | OTHER.

Record t := mk {
  id : Z;
  customer_id : Z;
  stage : OpportunityStage;
  amount : option number;
  probability : option Z;
  expected_revenue : option number;
  actual_revenue : option number;
  actual_close_date : option Z;      (* a [date]: the day number *)
  owner_id : Z;
  organizational_unit_id : Z;
  is_active : bool;
  won_date : option Z;
  lost_date : option Z;
  lost_reason : option LostReason;
  lost_notes : option string;
  competitor_name : option string
}.

Definition set_stage (s : OpportunityStage) (o : t) : t :=
  mk (id o) (customer_id o) s (amount o) (probability o) (expected_revenue o)
     (actual_revenue o) (actual_close_date o) (owner_id o)
     (organizational_unit_id o) (is_active o) (won_date o) (lost_date o)
     (lost_reason o) (lost_notes o) (competitor_name o).

Definition set_probability (p : option Z) (o : t) : t :=
  mk (id o) (customer_id o) (stage o) (amount o) p (expected_revenue o)
     (actual_revenue o) (actual_close_date o) (owner_id o)
     (organizational_unit_id o) (is_active o) (won_date o) (lost_date o)
     (lost_reason o) (lost_notes o) (competitor_name o).

Definition set_expected_revenue (r : option number) (o : t) : t :=
  mk (id o) (customer_id o) (stage o) (amount o) (probability o) r
     (actual_revenue o) (actual_close_date o) (owner_id o)
     (organizational_unit_id o) (is_active o) (won_date o) (lost_date o)
     (lost_reason o) (lost_notes o) (competitor_name o).

Definition set_actual_revenue (r : option number) (o : t) : t :=
  mk (id o) (customer_id o) (stage o) (amount o) (probability o)
     (expected_revenue o) r (actual_close_date o) (owner_id o)
     (organizational_unit_id o) (is_active o) (won_date o) (lost_date o)
     (lost_reason o) (lost_notes o) (competitor_name o).

(** The four assignments of the WON branch of [advance_stage]:
    [is_active], [won_date], [actual_close_date] (the date of the instant),
    and [actual_revenue = amount]. *)
Definition close_won (now : Z) (o : t) : t :=
  mk (id o) (customer_id o) (stage o) (amount o) (probability o)
     (expected_revenue o) (amount o) (Some (now / 86400)) (owner_id o)
     (organizational_unit_id o) false (Some now) (lost_date o)
     (lost_reason o) (lost_notes o) (competitor_name o).

(** The three assignments of the LOST branch. *)
Definition close_lost (now : Z) (o : t) : t :=
  mk (id o) (customer_id o) (stage o) (amount o) (probability o)
     (expected_revenue o) (actual_revenue o) (Some (now / 86400)) (owner_id o)
     (organizational_unit_id o) false (won_date o) (Some now)
     (lost_reason o) (lost_notes o) (competitor_name o).

Definition set_lost_details (reason : LostReason) (notes competitor : option string)
    (o : t) : t :=
  mk (id o) (customer_id o) (stage o) (amount o) (probability o)
     (expected_revenue o) (actual_revenue o) (actual_close_date o) (owner_id o)
     (organizational_unit_id o) (is_active o) (won_date o) (lost_date o)
     (Some reason) notes competitor.

(** The dict [stage_probabilities]; POST_SALE is not a key. *)
Definition stage_probabilities (s : OpportunityStage) : option Z :=
  match s with
  | IDENTIFICATION => Some 10
  | QUALIFICATION => Some 20
  | PROPOSAL => Some 40
  | NEGOTIATION => Some 60
  | CLOSING => Some 80
  | WON => Some 100
  | LOST => Some 0
  | POST_SALE => None
  end.

(** [amount * (probability / 100)]: the division of two [int]s gives a
    [float], and the product is taken with it. *)
Definition revenue_of (a : number) (p : Z) : result number :=
  x <- int_true_div p 100 ;; mul_float a x.

(** The methods below assign to the attributes of [self] one after the
    other and may raise in between: each gives the object as the call
    leaves it, and whether the call returned or raised. *)

(** [Opportunity.update_expected_revenue] *)
Definition update_expected_revenue (self : t) : t * result unit :=
  if truthy_number (amount self) && truthy_int (probability self) then
    match amount self, probability self with
    | Some a, Some p =>
        match revenue_of a p with
        | Ok r => (set_expected_revenue (Some r) self, Ok tt)
        | Raise e => (self, Raise e)
        end
    | _, _ => (self, Ok tt)
    end
  else (self, Ok tt).

(** The branches [if new_stage == WON: ... elif new_stage == LOST: ...]. *)
Definition close_if_final (new_stage : OpportunityStage) (now : Z) (self : t)
  : t :=
  match new_stage with
  | WON => close_won now self
  | LOST => close_lost now self
  | _ => self
  end.

(** [Opportunity.advance_stage] *)
Definition advance_stage (self : t) (new_stage : OpportunityStage) (now : Z)
  : t * result unit :=
  let self := set_stage new_stage self in
  match stage_probabilities new_stage with
  | Some p =>
      let '(self, updated) :=
        update_expected_revenue (set_probability (Some p) self) in
      match updated with
      | Ok _ => (close_if_final new_stage now self, Ok tt)
      | Raise e => (self, Raise e)
      end
  | None => (close_if_final new_stage now self, Ok tt)
  end.

(** [Opportunity.mark_won]; [actual_revenue=None] is the default. *)
Definition mark_won (self : t) (actual_revenue : option number) (now : Z)
  : t * result unit :=
  let '(self, advanced) := advance_stage self WON now in
  match advanced with
  | Ok _ =>
      if truthy_number actual_revenue
      then (set_actual_revenue actual_revenue self, Ok tt)
      else (self, Ok tt)
  | Raise e => (self, Raise e)
  end.

(** [Opportunity.mark_lost] *)
Definition mark_lost (self : t) (reason : LostReason)
    (notes competitor : option string) (now : Z) : t * result unit :=
  let '(self, advanced) := advance_stage self LOST now in
  match advanced with
  | Ok _ => (set_lost_details reason notes competitor self, Ok tt)
  | Raise e => (self, Raise e)
  end.

End Opportunity.

(** ** app/models/customer.py *)

Module Customer.

Inductive CustomerStage := SUSPECT | PROSPECT | LEAD | CUSTOMER | INACTIVE.

Record t := mk {
  id : Z;
  email : option string;
  phone : option string;
  mobile : option string;
  stage : CustomerStage;
  qualification_score : option Z;
  estimated_assets : option Q;
  credit_score : option Z;
  owner_id : Z;
  organizational_unit_id : Z;
  suspect_date : option Z;
  prospect_date : option Z;
  lead_date : option Z;
  customer_date : option Z;
  last_contact_date : option Z
}.

Definition set_stage (s : CustomerStage) (c : t) : t :=
  mk (id c) (email c) (phone c) (mobile c) s (qualification_score c)
     (estimated_assets c) (credit_score c) (owner_id c)
     (organizational_unit_id c) (suspect_date c) (prospect_date c)
     (lead_date c) (customer_date c) (last_contact_date c).

Definition set_prospect_date (d : option Z) (c : t) : t :=
  mk (id c) (email c) (phone c) (mobile c) (stage c) (qualification_score c)
     (estimated_assets c) (credit_score c) (owner_id c)
     (organizational_unit_id c) (suspect_date c) d
     (lead_date c) (customer_date c) (last_contact_date c).

Definition set_lead_date (d : option Z) (c : t) : t :=
  mk (id c) (email c) (phone c) (mobile c) (stage c) (qualification_score c)
     (estimated_assets c) (credit_score c) (owner_id c)
     (organizational_unit_id c) (suspect_date c) (prospect_date c)
     d (customer_date c) (last_contact_date c).

Definition set_customer_date (d : option Z) (c : t) : t :=
  mk (id c) (email c) (phone c) (mobile c) (stage c) (qualification_score c)
     (estimated_assets c) (credit_score c) (owner_id c)
     (organizational_unit_id c) (suspect_date c) (prospect_date c)
     (lead_date c) d (last_contact_date c).

Definition set_qualification_score (s : option Z) (c : t) : t :=
  mk (id c) (email c) (phone c) (mobile c) (stage c) s
     (estimated_assets c) (credit_score c) (owner_id c)
     (organizational_unit_id c) (suspect_date c) (prospect_date c)
     (lead_date c) (customer_date c) (last_contact_date c).

(** [Customer.advance_stage] *)
Definition advance_stage (self : t) (new_stage : CustomerStage) (now : Z) : t :=
  let self := set_stage new_stage self in
  match new_stage with
  | PROSPECT => set_prospect_date (Some now) self
  | LEAD => set_lead_date (Some now) self
  | CUSTOMER => set_customer_date (Some now) self
  | _ => self
  end.

(** The dynamic relationship [self.opportunities], over the
    [opportunities] table. *)
Definition opportunities (opps : list Opportunity.t) (self : t)
  : list Opportunity.t :=
  filter (fun o => Opportunity.customer_id o =? id self) opps.

(** [self.opportunities.filter_by(is_active=True).count()] *)
Definition active_opportunity_count (opps : list Opportunity.t) (self : t) : Z :=
  Z.of_nat (List.length (filter Opportunity.is_active (opportunities opps self))).

(** [(datetime.utcnow() - last).days]: whole days, rounded down. *)
Definition timedelta_days (now last : Z) : Z := (now - last) / 86400.

(** [Customer.calculate_qualification_score]: the customer with its stored
    score, and the returned score. *)
Definition calculate_qualification_score (opps : list Opportunity.t) (now : Z)
    (self : t) : t * Z :=
  let score := 0 in
  let score := if truthy_str (email self) then score + 10 else score in
  let score :=
    if truthy_str (mobile self) || truthy_str (phone self)
    then score + 10 else score in
  let score := if truthy_num (estimated_assets self) then score + 20 else score in
  let score :=
    if truthy_int (credit_score self) &&
       match credit_score self with Some cs => 600 <? cs | None => false end
    then score + 20 else score in
  let score :=
    match last_contact_date self with
    | Some last =>
        let days_since_contact := timedelta_days now last in
        if days_since_contact <? 7 then score + 20
        else if days_since_contact <? 30 then score + 10
        else score
    | None => score
    end in
  let score :=
    if 0 <? active_opportunity_count opps self then score + 20 else score in
  let q := Z.min score 100 in
  (set_qualification_score (Some q) self, q).

End Customer.

(** ** app/models/activity.py *)

Module Task.

Inductive TaskStatus := PENDING | IN_PROGRESS | COMPLETED | CANCELLED | OVERDUE.

Record t := mk {
  id : Z;
  status : TaskStatus;
  assigned_to_id : Z;
  assigned_by_id : Z;
  due_date : Z;
  is_overdue : bool;
  completed_date : option Z;
  escalation_level : Z;
  escalated_to_id : option Z;
  escalation_date : option Z
}.

(** [self.status not in [TaskStatus.COMPLETED, TaskStatus.CANCELLED]] *)
Definition not_closed (s : TaskStatus) : bool :=
  match s with
  | COMPLETED | CANCELLED => false
  | _ => true
  end.

(** [Task.check_overdue]: the task afterwards, and the returned flag. *)
Definition check_overdue (self : t) (now : Z) : t * bool :=
  if not_closed (status self) then
    if due_date self <? now then
      (mk (id self) OVERDUE (assigned_to_id self) (assigned_by_id self)
          (due_date self) true (completed_date self) (escalation_level self)
          (escalated_to_id self) (escalation_date self),
       true)
    else (self, false)
  else (self, false).

(** [Task.complete] *)
Definition complete (self : t) (now : Z) : t :=
  mk (id self) COMPLETED (assigned_to_id self) (assigned_by_id self)
     (due_date self) false (Some now) (escalation_level self)
     (escalated_to_id self) (escalation_date self).

(** [Task.escalate] *)
Definition escalate (self : t) (escalated_to_user_id : Z) (now : Z) : t :=
  mk (id self) (status self) (assigned_to_id self) (assigned_by_id self)
     (due_date self) (is_overdue self) (completed_date self)
     (escalation_level self + 1) (Some escalated_to_user_id) (Some now).

End Task.

(** ** app/utils/access_control.py *)

Module AccessControl.

Section WithRequest.
(** The request's [current_user], the [organizational_units] table and
    the interpreter's remaining stack depth. *)
Variable current_user : CurrentUser.
Variable db : UnitTable.
Variable depth : nat.

(** [User.can_access_customer] *)
Definition can_access_customer (self : User) (customer : Customer.t)
  : result bool :=
  if level_eqb (access_level self) INDIVIDUAL
  then Ok (Customer.owner_id customer =? user_id self)
  else can_access_organizational_unit depth db self
         (Customer.organizational_unit_id customer).

Definition can_view_customer (customer : Customer.t) : result bool :=
  match current_user with
  | AnonymousUser => Ok false
  | LoggedIn u =>
      if negb (is_authenticated u) then Ok false
      else can_access_customer u customer
  end.

Definition can_edit_customer (customer : Customer.t) : result bool :=
  match current_user with
  | AnonymousUser => Ok false
  | LoggedIn u =>
      if negb (is_authenticated u) then Ok false
      else if level_eqb (access_level u) INDIVIDUAL
      then Ok (Customer.owner_id customer =? user_id u)
      else can_access_organizational_unit depth db u
             (Customer.organizational_unit_id customer)
  end.

Definition can_delete_customer (customer : Customer.t) : result bool :=
  match current_user with
  | AnonymousUser => Ok false
  | LoggedIn u =>
      if negb (is_authenticated u) then Ok false
      else if level_eqb (access_level u) INDIVIDUAL then Ok false
      else can_access_organizational_unit depth db u
             (Customer.organizational_unit_id customer)
  end.

Definition can_reassign_customer (customer : Customer.t) : result bool :=
  match current_user with
  | AnonymousUser => Ok false
  | LoggedIn u =>
      if negb (is_authenticated u) then Ok false
      else if level_eqb (access_level u) INDIVIDUAL then Ok false
      else can_access_organizational_unit depth db u
             (Customer.organizational_unit_id customer)
  end.

Definition can_approve_opportunity (opportunity : Opportunity.t)
  : result bool :=
  match current_user with
  | AnonymousUser => Ok false
  | LoggedIn u =>
      if negb (is_authenticated u) then Ok false
      else if level_value BRANCH <? level_value (access_level u) then Ok false
      else can_access_organizational_unit depth db u
             (Opportunity.organizational_unit_id opportunity)
  end.

Definition can_view_sensitive_data : bool :=
  match current_user with
  | AnonymousUser => false
  | LoggedIn u =>
      if negb (is_authenticated u) then false
      else level_value (access_level u) <=? level_value BRANCH
  end.
End WithRequest.

(** [AccessControl.can_set_targets] *)
Definition can_set_targets (current_user : CurrentUser) : bool :=
  match current_user with
  | AnonymousUser => false
  | LoggedIn u =>
      if negb (is_authenticated u) then false
      else level_value (access_level u) <=? level_value BRANCH
  end.

(** [AccessControl.can_view_analytics] *)
Definition can_view_analytics (current_user : CurrentUser) : bool :=
  match current_user with
  | AnonymousUser => false
  | LoggedIn u =>
      if negb (is_authenticated u) then false
      else level_value (access_level u) <=? level_value BRANCH
  end.

(** The relationship [opportunity.customer], over the [customers] table. *)
Definition opportunity_customer (customers : list Customer.t)
    (opportunity : Opportunity.t) : option Customer.t :=
  find (fun c => Customer.id c =? Opportunity.customer_id opportunity)
       customers.

(** [AccessControl.can_view_opportunity]; with no customer row the
    attribute read on [None] raises. *)
Definition can_view_opportunity (current_user : CurrentUser) (db : UnitTable)
    (depth : nat) (customers : list Customer.t) (opportunity : Opportunity.t)
  : result bool :=
  match current_user with
  | AnonymousUser => Ok false
  | LoggedIn u =>
      if negb (is_authenticated u) then Ok false
      else
        match opportunity_customer customers opportunity with
        | Some customer => can_access_customer db depth u customer
        | None =>
            if level_eqb (access_level u) INDIVIDUAL
            then Raise (AttributeError
                          "'NoneType' object has no attribute 'owner_id'")
            else Raise (AttributeError
                          "'NoneType' object has no attribute 'organizational_unit_id'")
        end
  end.

(** ['*' * n] *)
Fixpoint stars (n : nat) : string :=
  match n with
  | O => EmptyString
  | S n' => String "*" (stars n')
  end.

(** [AccessControl.mask_account_number] *)
Definition mask_account_number (current_user : CurrentUser)
    (account_number : option string) : string :=
  match account_number with
  | None => EmptyString
  | Some EmptyString => EmptyString
  | Some number =>
      if can_view_sensitive_data current_user then number
      else if (4 <? String.length number)%nat
      then (stars (String.length number - 4)
            ++ substring (String.length number - 4) 4 number)%string
      else "****"%string
  end.

(** The loop of [get_accessible_user_ids] extending [user_ids] unit by
    unit. *)
Fixpoint extend_user_ids (users : list User)
    (units : list (option OrganizationalUnit)) : result (list Z) :=
  match units with
  | [] => Ok []
  | Some unit :: rest =>
      tl <- extend_user_ids users rest ;;
      Ok (map user_id
            (filter (fun u => organizational_unit_id u =? unit_id unit) users)
          ++ tl)
  | None :: _ =>
      Raise (AttributeError "'NoneType' object has no attribute 'users'")
  end.

(** [AccessControl.get_accessible_user_ids], over the [users] table. *)
Definition get_accessible_user_ids (current_user : CurrentUser)
    (db : UnitTable) (depth : nat) (users : list User) : result (list Z) :=
  match current_user with
  | AnonymousUser => Ok []
  | LoggedIn u =>
      if negb (is_authenticated u) then Ok []
      else if level_eqb (access_level u) EXECUTIVE
      then Ok (map user_id users)
      else
        accessible_units <- get_accessible_organizational_units depth db u ;;
        extend_user_ids users accessible_units
  end.

End AccessControl.

(** ** app/utils/query_filters.py *)

Module QueryFilters.

Definition id_in (k : Z) (ids : list Z) : bool := existsb (Z.eqb k) ids.

(** [[u.id for u in unit.users.all()]] *)
Definition unit_user_ids (users : list User) (unit : OrganizationalUnit)
  : list Z :=
  map user_id
    (filter (fun u => organizational_unit_id u =? unit_id unit) users).

(** The loop collecting [accessible_user_ids]; a [None] in the unit list
    has no [users]. *)
Fixpoint collect_user_ids (users : list User)
    (units : list (option OrganizationalUnit)) : result (list Z) :=
  match units with
  | [] => Ok []
  | Some unit :: rest =>
      tl <- collect_user_ids users rest ;;
      Ok (unit_user_ids users unit ++ tl)
  | None :: _ =>
      Raise (AttributeError "'NoneType' object has no attribute 'users'")
  end.

(** [apply_task_filter]; [query.filter(Task.id == None)] selects no row. *)
Definition apply_task_filter (current_user : CurrentUser) (db : UnitTable)
    (users : list User) (depth : nat) (query : list Task.t)
  : result (list Task.t) :=
  match current_user with
  | AnonymousUser => Ok []
  | LoggedIn u =>
      if negb (is_authenticated u) then Ok []
      else if level_eqb (access_level u) EXECUTIVE then Ok query
      else if level_eqb (access_level u) INDIVIDUAL then
        Ok (filter (fun t => (Task.assigned_to_id t =? user_id u)
                             || (Task.assigned_by_id t =? user_id u)) query)
      else
        accessible_units <- get_accessible_organizational_units depth db u ;;
        accessible_user_ids <- collect_user_ids users accessible_units ;;
        Ok (filter (fun t => id_in (Task.assigned_to_id t) accessible_user_ids
                             || id_in (Task.assigned_by_id t) accessible_user_ids)
                   query)
  end.

(** What [hasattr(model, ...)] finds on a mapped class: the column
    accessors it has. *)
Record Model (R : Type) := mk_model {
  attr_owner_id : option (R -> Z);
  attr_organizational_unit_id : option (R -> Z)
}.
Arguments mk_model {R} _ _.
Arguments attr_owner_id {R} _.
Arguments attr_organizational_unit_id {R} _.

(** [[unit.id for unit in accessible_units]] *)
Fixpoint unit_ids (units : list (option OrganizationalUnit)) : result (list Z) :=
  match units with
  | [] => Ok []
  | Some unit :: rest =>
      tl <- unit_ids rest ;;
      Ok (unit_id unit :: tl)
  | None :: _ =>
      Raise (AttributeError "'NoneType' object has no attribute 'id'")
  end.

(** [apply_access_filter] *)
Definition apply_access_filter {R : Type} (current_user : CurrentUser)
    (db : UnitTable) (depth : nat) (query : list R) (model : Model R)
  : result (list R) :=
  match current_user with
  | AnonymousUser => Ok []
  | LoggedIn u =>
      if negb (is_authenticated u) then Ok []
      else if level_eqb (access_level u) EXECUTIVE then Ok query
      else
        accessible_units <- get_accessible_organizational_units depth db u ;;
        accessible_unit_ids <- unit_ids accessible_units ;;
        if level_eqb (access_level u) INDIVIDUAL then
          match attr_owner_id model with
          | Some owner =>
              Ok (filter (fun r => owner r =? user_id u) query)
          | None =>
              match attr_organizational_unit_id model with
              | Some unit_of =>
                  Ok (filter (fun r => id_in (unit_of r) accessible_unit_ids)
                             query)
              | None => Ok query
              end
          end
        else
          match attr_organizational_unit_id model with
          | Some unit_of =>
              Ok (filter (fun r => id_in (unit_of r) accessible_unit_ids) query)
          | None => Ok query
          end
  end.

(** The mapped classes [Customer] and [Opportunity]: both have [owner_id]
    and [organizational_unit_id]. *)
Definition CustomerModel : Model Customer.t :=
  mk_model (Some Customer.owner_id) (Some Customer.organizational_unit_id).

Definition OpportunityModel : Model Opportunity.t :=
  mk_model (Some Opportunity.owner_id)
           (Some Opportunity.organizational_unit_id).

(** [apply_customer_filter] *)
Definition apply_customer_filter (current_user : CurrentUser) (db : UnitTable)
    (depth : nat) (query : list Customer.t) : result (list Customer.t) :=
  apply_access_filter current_user db depth query CustomerModel.

(** [apply_opportunity_filter] *)
Definition apply_opportunity_filter (current_user : CurrentUser)
    (db : UnitTable) (depth : nat) (query : list Opportunity.t)
  : result (list Opportunity.t) :=
  apply_access_filter current_user db depth query OpportunityModel.

End QueryFilters.

(** ** app/models/audit.py and app/utils/decorators.py *)

Module Audit.

(** [user.id] and [user.username] of the acting [User]. *)
Definition subject_id (u : User) : Z := user_id u.
Definition subject_name (u : User) : string := username u.

(** The Flask request the entry takes its context from. *)
Record Request := mk_request {
  remote_addr : option string;
  user_agent_header : option string;     (* headers.get('User-Agent') *)
  request_endpoint : option string;
  request_method : string
}.

(** A row of [audit_logs]. *)
Record AuditLog := mk_entry {
  user_id : option Z;
  username : string;
  action : string;
  resource_type : string;
  resource_id : option Z;
  description : option string;
  old_values : option string;
  new_values : option string;
  ip_address : option string;
  user_agent : option string;
  endpoint : option string;
  method : option string;
  success : bool;
  error_message : option string;
  timestamp : Z
}.

(** What the audited code runs in: the logged-in user, the request if there
    is one, the clock, the [audit_logs] table, the two loggers, and whether
    [db.session.commit()] raises. *)
Record World := mk_world {
  current_user : CurrentUser;
  request : option Request;
  clock : Z;
  audit_logs : list AuditLog;
  commit_failure : option exn;
  audit_logger : list string;       (* logging.getLogger('audit').info *)
  app_logger : list string          (* current_app.logger.error *)
}.

Definition with_entry (e : AuditLog) (line : string) (w : World) : World :=
  mk_world (current_user w) (request w) (clock w) (audit_logs w ++ [e])
           (commit_failure w) (audit_logger w ++ [line]) (app_logger w).

Definition with_app_error (line : string) (w : World) : World :=
  mk_world (current_user w) (request w) (clock w) (audit_logs w)
           (commit_failure w) (audit_logger w) (app_logger w ++ [line]).

Definition str_int (n : Z) : string := NilZero.string_of_int (Z.to_int n).

Definition str_opt_int (n : option Z) : string :=
  match n with
  | Some n => str_int n
  | None => "None"
  end.

Definition str_bool (b : bool) : string := if b then "True" else "False".

Definition from_opt (d : string) (s : option string) : string :=
  match s with
  | Some s => s
  | None => d
  end.

(** The f-string written to the audit logger. *)
Definition log_message (e : AuditLog) (action resource_type : string)
    (resource_id : option Z) (success : bool) (error_message : option string)
  : string :=
  let m := ("User: " ++ username e ++ ", Action: " ++ action ++ ", Resource: "
            ++ resource_type ++ ":" ++ str_opt_int resource_id
            ++ ", Success: " ++ str_bool success)%string in
  if truthy_str error_message
  then (m ++ ", Error: " ++ from_opt EmptyString error_message)%string
  else m.

(** [AuditLog.log_action] *)
Definition log_action (w : World) (user : option User)
    (action resource_type : string) (resource_id : option Z)
    (description old_values new_values : option string)
    (success : bool) (error_message : option string)
  : World * result AuditLog :=
  let audit_entry :=
    mk_entry
      (match user with Some u => Some (subject_id u) | None => None end)
      (match user with Some u => subject_name u | None => "anonymous" end)
      action resource_type resource_id description old_values new_values
      (match request w with Some r => remote_addr r | None => None end)
      (match request w with
       | Some r => Some (substring 0 500 (from_opt EmptyString (user_agent_header r)))
       | None => None
       end)
      (match request w with Some r => request_endpoint r | None => None end)
      (match request w with Some r => Some (request_method r) | None => None end)
      success error_message (clock w) in
  match commit_failure w with
  | Some e => (w, Raise e)
  | None =>
      (with_entry audit_entry
         (log_message audit_entry action resource_type resource_id success
            error_message) w,
       Ok audit_entry)
  end.

(** [kwargs.get(name)] *)
Definition kwargs_get (kwargs : list (string * Z)) (name : string) : option Z :=
  match find (fun kv => String.eqb (fst kv) name) kwargs with
  | Some kv => Some (snd kv)
  | None => None
  end.




(** An argument of [require_access_level]: a name, a member of the enum, or
    anything else (which the conversion loop skips). *)
Inductive level_arg :=
| LevelName (name : string)
| LevelMember (l : AccessLevel)
| LevelOther.

(** [str.upper] on the letters a to z. *)
Definition upper_ascii (c : ascii) : ascii :=
  let n := nat_of_ascii c in
  if ((97 <=? n) && (n <=? 122))%nat then ascii_of_nat (n - 32) else c.

Fixpoint upper (s : string) : string :=
  match s with
  | EmptyString => EmptyString
  | String c rest => String (upper_ascii c) (upper rest)
  end.

(** [AccessLevel[name]]: the member of that name, or [KeyError]. *)
Definition level_of_name (name : string) : result AccessLevel :=
  if String.eqb name "EXECUTIVE" then Ok EXECUTIVE
  else if String.eqb name "REGIONAL" then Ok REGIONAL
  else if String.eqb name "BRANCH" then Ok BRANCH
  else if String.eqb name "INDIVIDUAL" then Ok INDIVIDUAL
  else Raise (mk_exn "KeyError" ("'" ++ name ++ "'")%string true).

(** The loop building [required_levels]. *)
Fixpoint convert_levels (levels : list level_arg) : result (list AccessLevel) :=
  match levels with
  | [] => Ok []
  | LevelName name :: rest =>
      l <- level_of_name (upper name) ;;
      tl <- convert_levels rest ;;
      Ok (l :: tl)
  | LevelMember l :: rest =>
      tl <- convert_levels rest ;;
      Ok (l :: tl)
  | LevelOther :: rest => convert_levels rest
  end.

Section Decorator.
(** The value type of the wrapped view functions. *)
Variable V : Type.

(** A view function: it runs in the world, may change it, and returns or
    raises. *)
Definition view := list (string * Z) -> World -> World * result V.

(** [audit_action(action, resource_type)(f)], the [decorated_function]. *)
Definition audit_action (action resource_type : string) (f : view) : view :=
  fun kwargs w =>
    let resource_id :=
      or_int (or_int (kwargs_get kwargs "id") (kwargs_get kwargs "customer_id"))
             (kwargs_get kwargs "opportunity_id") in
    let '(w, outcome) := f kwargs w in
    let '(success, error_message) :=
      match outcome with
      | Ok _ => (true, None)
      | Raise e =>
          if is_exception e then (false, Some (exn_str e)) else (true, None)
      end in
    (* finally *)
    if authenticated (current_user w) then
      match current_user w with
      | LoggedIn u =>
          let '(w, logged) :=
            log_action w (Some u) action resource_type resource_id
              (Some (action ++ " " ++ resource_type)%string) None None
              success error_message in
          match logged with
          | Ok _ => (w, outcome)
          | Raise audit_error =>
              if is_exception audit_error then
                (with_app_error
                   ("Audit logging failed: " ++ exn_str audit_error)%string w,
                 outcome)
              else (w, Raise audit_error)
          end
      | AnonymousUser => (w, outcome)
      end
    else (w, outcome).


(** [sensitive_data_access(f)], the [decorated_function]. *)
Definition sensitive_data_access (f_name : string) (f : view) : view :=
  fun kwargs w =>
    let '(w, outcome) := f kwargs w in
    match outcome with
    | Raise e => (w, Raise e)
    | Ok result =>
        if authenticated (current_user w) then
          match current_user w with
          | LoggedIn u =>
              let '(w, logged) :=
                log_action w (Some u) "view_sensitive" "sensitive_data" None
                  (Some ("Accessed sensitive data in " ++ f_name)%string)
                  None None true None in
              match logged with
              | Ok _ => (w, Ok result)
              | Raise e =>
                  if is_exception e then
                    (with_app_error
                       ("Sensitive data audit failed: " ++ exn_str e)%string w,
                     Ok result)
                  else (w, Raise e)
              end
          | AnonymousUser => (w, Ok result)
          end
        else (w, Ok result)
    end.

End Decorator.

End Audit.

(** ** Vocabulary of the properties *)

(** [descendant db a d]: unit [d] lies strictly below unit [a] in the tree
    that the [parent_id] column of [db] spells out. *)
Inductive descendant (db : UnitTable) (a : Z) : Z -> Prop :=
| descendant_child c :
    In c db -> unit_parent_id c = Some a -> descendant db a (unit_id c)
| descendant_below c d :
    In c db -> unit_parent_id c = Some a ->
    descendant db (unit_id c) d -> descendant db a d.

(** The parent graph is acyclic and of finite depth: some rank strictly
    decreases from every parent to its children. *)
Definition acyclic_by (db : UnitTable) (rank : Z -> nat) : Prop :=
  forall c p, In c db -> unit_parent_id c = Some p ->
              (rank (unit_id c) < rank p)%nat.

(** ** The seed data of [app.py], used for concrete runs *)

Module Seed.

Local Open Scope string_scope.

Definition bank := mk_unit 1 "Universal Bank" None.
Definition region_sarajevo := mk_unit 2 "Sarajevo Region" (Some 1).
Definition branch_centar := mk_unit 3 "Centar Branch" (Some 2).

Definition units : UnitTable := [bank; region_sarajevo; branch_centar].

(** Distance to the deepest level of the seeded tree. *)
Definition rank (k : Z) : nat := Z.to_nat (3 - k).

Definition admin := mk_user 1 "admin" EXECUTIVE 1 true true.
Definition regional_mgr := mk_user 2 "regional" REGIONAL 2 true true.
Definition branch_mgr := mk_user 3 "branch" BRANCH 3 true true.
Definition rm1 := mk_user 4 "rm1" INDIVIDUAL 3 true true.

Definition users : list User := [admin; regional_mgr; branch_mgr; rm1].

(** The first seeded customer: owned by [rm1], in the Centar branch. *)
Definition emir : Customer.t :=
  Customer.mk 1 (Some "emir@email.ba") (Some "+387 33 123 456") None
    Customer.CUSTOMER (Some 50) None None 4 3
    (Some 0) None None (Some 1728000) None.

(** [opp1] as [app.py] builds it: the [int] amount 150000, probability 60,
    and the expected revenue [update_expected_revenue] then computes, the
    [float] 90000.0. *)
Definition opp1 : Opportunity.t :=
  Opportunity.mk 1 1 Opportunity.PROPOSAL (Some (PyInt 150000)) (Some 60)
    (Some (PyFloat 90000%float)) None None 4 3 true None None None None None.

(** [opp1] as a later request loads it: the [Numeric] columns come back as
    [Decimal]. *)
Definition opp1_stored : Opportunity.t :=
  Opportunity.mk 1 1 Opportunity.PROPOSAL (Some (PyDecimal (150000 # 1)))
    (Some 60) (Some (PyDecimal (90000 # 1))) None None 4 3 true
    None None None None None.

(** [task1]: assigned to [rm1] by the branch manager. *)
Definition task1 : Task.t :=
  Task.mk 1 Task.PENDING 4 3 2764800 false None 0 None None.

End Seed.

(** WON and LOST, the two closed stages of the pipeline. *)
Definition closed_stage (s : Opportunity.OpportunityStage) : bool :=
  match s with
  | Opportunity.WON | Opportunity.LOST => true
  | _ => false
  end.


(** The seeded opportunity, not yet stored, after [mark_won()] at instant
    100. *)
Definition won_opp1 : Opportunity.t :=
  fst (Opportunity.mark_won Seed.opp1 None 100).



(** The amount is a [float], as a form field gives it. *)
Definition float_amount (o : Opportunity.t) : Prop :=
  exists x, Opportunity.amount o = Some (PyFloat x).

(** The timestamp column that belongs to a customer stage; INACTIVE has
    none. *)
Definition timestamp_of (s : Customer.CustomerStage) (c : Customer.t)
  : option Z :=
  match s with
  | Customer.SUSPECT => Customer.suspect_date c
  | Customer.PROSPECT => Customer.prospect_date c
  | Customer.LEAD => Customer.lead_date c
  | Customer.CUSTOMER => Customer.customer_date c
  | Customer.INACTIVE => None
  end.

(** The stages whose timestamp [advance_stage] writes. *)
Definition stamped_stage (s : Customer.CustomerStage) : bool :=
  match s with
  | Customer.PROSPECT | Customer.LEAD | Customer.CUSTOMER => true
  | _ => false
  end.

(** [task1] after it was cancelled. *)
Definition cancelled_task1 : Task.t :=
  Task.mk 1 Task.CANCELLED 4 3 2764800 false None 0 None None.

(** The qualification score as the specification words it: points per
    signal, summed and clamped to 100.  [days] is the number of whole days
    since the last contact, when there was one. *)
Definition points (b : bool) (n : Z) : Z := if b then n else 0.

Definition contact_points (days : option Z) : Z :=
  match days with
  | Some d => if d <? 7 then 20 else if d <? 30 then 10 else 0
  | None => 0
  end.

Definition credit_points (credit : option Z) : Z :=
  match credit with
  | Some cs => points (600 <? cs) 20
  | None => 0
  end.

Definition spec_score (email phone assets : bool) (credit days : option Z)
    (active : Z) : Z :=
  Z.min (points email 10 + points phone 10 + points assets 20
         + credit_points credit + contact_points days
         + points (1 <=? active) 20) 100.

(** The signals of a customer: a column is present when it holds a value
    Python takes for true (not [None], not the empty string, not zero). *)
Definition email_present (c : Customer.t) : bool :=
  truthy_str (Customer.email c).
Definition phone_present (c : Customer.t) : bool :=
  truthy_str (Customer.mobile c) || truthy_str (Customer.phone c).
Definition assets_present (c : Customer.t) : bool :=
  truthy_num (Customer.estimated_assets c).
Definition days_since_contact (now : Z) (c : Customer.t) : option Z :=
  match Customer.last_contact_date c with
  | Some last => Some (Customer.timedelta_days now last)
  | None => None
  end.

(** A request and a world for concrete runs of the audit wrapper: empty
    [audit_logs], a database that commits. *)
Definition seed_request : Audit.Request :=
  Audit.mk_request (Some "127.0.0.1"%string) (Some "Mozilla/5.0"%string)
                   (Some "customers.view"%string) "GET".

Definition seed_world (cu : CurrentUser) : Audit.World :=
  Audit.mk_world cu (Some seed_request) 2592000 [] None [] [].

(** A view function that raises [e] and touches nothing. *)
Definition failing_view (e : exn) : Audit.view string :=
  fun _ w => (w, Raise e).

(** [assert customer is not None] failing: an [AssertionError] whose
    [str] is empty. *)
Definition bare_assertion : exn := mk_exn "AssertionError" EmptyString true.

(** [CustomerStage['x']] failing. *)
Definition key_error : exn := mk_exn "KeyError" "'x'" true.

(** The database refusing the commit. *)
Definition operational_error : exn :=
  mk_exn "OperationalError" "database is locked" true.

(** A world whose commits fail, and a view that returns its page. *)
Definition locked_world (cu : CurrentUser) : Audit.World :=
  Audit.mk_world cu (Some seed_request) 2592000 [] (Some operational_error)
                 [] [].

Definition page_view : Audit.view string :=
  fun _ w => (w, Ok "customers/view.html"%string).

(** The primary key: no two rows of the table share an id. *)
Definition unique_ids (db : UnitTable) : Prop := NoDup (map unit_id db).

(** A list of units in which each one is the parent row of the next. *)
Inductive chain (db : UnitTable) : list OrganizationalUnit -> Prop :=
| chain_one u : chain db [u]
| chain_cons a b rest :
    parent db b = Some a -> chain db (b :: rest) -> chain db (a :: b :: rest).

(** A second customer, owned by the branch manager, and an opportunity on
    it that [rm1] owns. *)
Definition ana : Customer.t :=
  Customer.mk 2 (Some "ana@email.ba"%string) (Some "+387 33 123 456"%string)
    None Customer.LEAD (Some 50) None None 3 3 (Some 0) None None None None.

Definition opp_on_ana : Opportunity.t :=
  Opportunity.mk 3 2 Opportunity.PROPOSAL (Some (PyDecimal (5000 # 1)))
    (Some 40) (Some (PyDecimal (2000 # 1))) None None 4 3 true
    None None None None None.

(** The interpreter exiting inside a view: not an [Exception]. *)
Definition system_exit : exn := mk_exn "SystemExit" "1" false.

(** The overdue flag and the status say the same. *)
Definition overdue_consistent (t : Task.t) : Prop :=
  Task.is_overdue t = true <-> Task.status t = Task.OVERDUE.

(** A run of escalations, each to a user at an instant. *)
Definition escalations (t : Task.t) (steps : list (Z * Z)) : Task.t :=
  fold_left (fun t step => Task.escalate t (fst step) (snd step)) steps t.

(** A number that is zero, of whichever type. *)
Definition is_zero (v : number) : Prop :=
  match v with
  | PyInt n => n = 0
  | PyFloat x => PrimFloat.eqb x PrimFloat.zero = true
  | PyDecimal q => (q == 0)%Q
  end.

(** The probability an opportunity has once [advance_stage] assigned it. *)
Definition probability_after (o : Opportunity.t)
    (S : Opportunity.OpportunityStage) : option Z :=
  match Opportunity.stage_probabilities S with
  | Some p => Some p
  | None => Opportunity.probability o
  end.

(** An opportunity whose amount is the [float] 3.0, as the create and edit
    routes read it from the form: [request.form.get('amount', type=float)]. *)
Definition three_float_opp : Opportunity.t :=
  Opportunity.mk 4 1 Opportunity.IDENTIFICATION (Some (PyFloat 3%float))
    (Some 10) None None None 4 3 true None None None None None.

(** An opportunity on the seeded customer of the Centar branch (unit 3),
    created by the regional manager: the create route stores the creator
    as owner and the creator's unit, 2, as the opportunity's unit. *)
Definition opp_by_region : Opportunity.t :=
  Opportunity.mk 2 1 Opportunity.IDENTIFICATION (Some (PyDecimal (1000 # 1)))
    (Some 10) (Some (PyDecimal (100 # 1))) None None 2 2 true
    None None None None None.

(** The signals of the qualification score, worded on the stored columns
    and rows. *)
Definition nonempty (s : option string) : Prop :=
  exists t, s = Some t /\ t <> EmptyString.

Definition nonzero_amount (q : option Q) : Prop :=
  exists v, q = Some v /\ ~ (v == 0)%Q.

Definition credit_above (n : Z) (c : Customer.t) : Prop :=
  exists cs, Customer.credit_score c = Some cs /\ n < cs.

(** The last contact lies less than [days] times 24 hours before [now]. *)
Definition contacted_within (days now : Z) (c : Customer.t) : Prop :=
  exists last,
    Customer.last_contact_date c = Some last /\ now - last < days * 86400.

Definition has_active_opportunity (opps : list Opportunity.t) (c : Customer.t)
  : Prop :=
  exists o, In o opps /\ Opportunity.customer_id o = Customer.id c /\
            Opportunity.is_active o = true.

(** [x] is [n] when [P] holds and 0 when it does not. *)
Definition award (P : Prop) (n x : Z) : Prop :=
  P /\ x = n \/ ~ P /\ x = 0.

(** A customer with nothing filled in but estimated assets of 0.00. *)
Definition zero_assets_customer : Customer.t :=
  Customer.mk 3 None None None Customer.SUSPECT (Some 0) (Some (0 # 1)) None
    4 3 None None None None None.




(** What [Decimal * float] raises. *)
Definition decimal_float_error : exn :=
  TypeError "unsupported operand type(s) for *: 'decimal.Decimal' and 'float'".

(** * Properties *)

(** ** The organizational-unit tree *)

Lemma opt_eqb_spec o k : opt_eqb o k = true <-> o = Some k.
Proof.
  destruct o as [v|]; simpl.
  - rewrite Z.eqb_eq. split; [intros -> | intros [= ->]]; reflexivity.
  - split; discriminate.
Qed.

Lemma children_spec db u c :
  In c (children db u) <-> In c db /\ unit_parent_id c = Some (unit_id u).
Proof.
  unfold children. rewrite filter_In, opt_eqb_spec. reflexivity.
Qed.

Lemma query_get_some db k r :
  query_get db k = Some r -> In r db /\ unit_id r = k.
Proof.
  unfold query_get. intros H. apply find_some in H.
  destruct H as [Hin Heq]. apply Z.eqb_eq in Heq. auto.
Qed.

Lemma query_get_none db k r :
  query_get db k = None -> In r db -> unit_id r <> k.
Proof.
  unfold query_get. intros H Hin Heq.
  apply (find_none _ _ H) in Hin. apply Z.eqb_neq in Hin. contradiction.
Qed.

Lemma unit_in_spec t l :
  unit_in t l = true <-> exists x, In x l /\ unit_id x = unit_id t.
Proof.
  unfold unit_in. rewrite existsb_exists.
  split; intros [x [Hin Hx]]; exists x; split; auto; now apply Z.eqb_eq.
Qed.

(** What the loop of [get_all_children] gathers, for any recursive call. *)
Lemma extend_each_members rec cs l :
  extend_each rec cs = Ok l ->
  forall x, In x l <->
            exists c, In c cs /\
                      (x = c \/ exists sub, rec c = Ok sub /\ In x sub).
Proof.
  revert l. induction cs as [|child rest IH]; simpl; intros l H x.
  - injection H as <-. split; [intros [] | intros [c [[] _]]].
  - destruct (rec child) as [sub|e] eqn:Hsub; simpl in H; [|discriminate].
    destruct (extend_each rec rest) as [tl|e] eqn:Htl; simpl in H; [|discriminate].
    injection H as <-. specialize (IH tl eq_refl x).
    simpl. rewrite in_app_iff, IH. split.
    + intros [<- | [Hx | [c [Hc Hx]]]].
      * exists child; auto.
      * exists child; split; eauto.
      * exists c; auto.
    + intros [c [[<- | Hc] [-> | [s [Hs Hx]]]]]; auto.
      * rewrite Hsub in Hs. injection Hs as <-. auto.
      * right; right; exists c; auto.
      * right; right; exists c; eauto.
Qed.

Lemma extend_each_total rec cs :
  (forall c, In c cs -> exists sub, rec c = Ok sub) ->
  exists l, extend_each rec cs = Ok l.
Proof.
  induction cs as [|child rest IH]; simpl; intros H.
  - eexists; reflexivity.
  - destruct (H child (or_introl eq_refl)) as [sub ->].
    destruct IH as [tl ->]; [intros c Hc; apply H; auto|].
    simpl. eexists; reflexivity.
Qed.

(** The loop only finishes when every recursive call returned. *)
Lemma rec_ok_of_extend rec cs l :
  extend_each rec cs = Ok l ->
  forall c, In c cs -> exists sub, rec c = Ok sub.
Proof.
  revert l. induction cs as [|child rest IH]; simpl; intros l H c Hc; [easy|].
  destruct (rec child) as [sub|e] eqn:Hsub; simpl in H; [|discriminate].
  destruct (extend_each rec rest) as [tl|e] eqn:Htl; simpl in H; [|discriminate].
  destruct Hc as [<- | Hc]; eauto.
Qed.

(** [get_all_children] returns exactly the rows strictly below the unit. *)
Lemma get_all_children_members depth db :
  forall u l, get_all_children depth db u = Ok l ->
  forall t, (exists x, In x l /\ unit_id x = t) <-> descendant db (unit_id u) t.
Proof.
  induction depth as [|depth IH]; simpl; intros u l H t; [discriminate|].
  pose proof (extend_each_members _ _ _ H) as Hmem. split.
  - intros [x [Hx <-]]. apply Hmem in Hx.
    destruct Hx as [c [Hc [-> | [sub [Hsub Hx]]]]];
      apply children_spec in Hc; destruct Hc as [Hdb Hpar].
    + now apply descendant_child.
    + apply descendant_below with c; auto.
      apply (IH c sub Hsub). eauto.
  - intros Hd. inversion Hd as [c Hdb Hpar Ht | c d Hdb Hpar Hbelow]; subst.
    + exists c. split; auto. apply Hmem. exists c. split; auto.
      apply children_spec; auto.
    + assert (Hc : In c (children db u)) by (apply children_spec; auto).
      destruct (rec_ok_of_extend _ _ _ H c Hc) as [sub Hsub].
      destruct (proj2 (IH c sub Hsub t) Hbelow) as [x [Hx Hxt]].
      exists x. split; auto. apply Hmem. exists c. split; eauto.
Qed.

(** With an acyclic table and enough stack, [get_all_children] returns. *)
Lemma get_all_children_total db rank :
  acyclic_by db rank ->
  forall depth u, (rank (unit_id u) < depth)%nat ->
  exists l, get_all_children depth db u = Ok l.
Proof.
  intros Hacyc. induction depth as [|depth IH]; intros u Hlt; [lia|].
  simpl. apply extend_each_total. intros c Hc.
  apply children_spec in Hc. destruct Hc as [Hdb Hpar].
  apply IH. specialize (Hacyc c _ Hdb Hpar). lia.
Qed.

Lemma seed_units_acyclic : acyclic_by Seed.units Seed.rank.
Proof.
  intros c p Hin Hpar. simpl in Hin.
  destruct Hin as [<- | [<- | [<- | []]]]; simpl in Hpar;
    try discriminate; injection Hpar as <-; vm_compute; lia.
Qed.

(** ** Access policy *)

Lemma descendant_in_table db a d :
  descendant db a d -> exists c, In c db /\ unit_id c = d.
Proof.
  intros Hd. induction Hd as [a c Hc Hpar | a c d Hc Hpar Hd IH]; eauto.
Qed.

Lemma regional_or_branch_levels l :
  l = REGIONAL \/ l = BRANCH ->
  level_eqb l EXECUTIVE = false /\ level_eqb l INDIVIDUAL = false /\
  is_regional_or_branch l = true.
Proof. intros [-> | ->]; repeat split; reflexivity. Qed.

(** The relationship [opportunity.customer] reaches the row whose primary
    key is the opportunity's [customer_id]. *)
Lemma opportunity_customer_row customers o c :
  NoDup (map Customer.id customers) ->
  In c customers -> Customer.id c = Opportunity.customer_id o ->
  AccessControl.opportunity_customer customers o = Some c.
Proof.
  unfold AccessControl.opportunity_customer.
  induction customers as [|x rest IH]; simpl; intros Hnd Hin Hid; [easy|].
  inversion Hnd as [|? ? Hfresh Hrest]; subst.
  destruct Hin as [-> | Hin].
  - apply Z.eqb_eq in Hid. now rewrite Hid.
  - destruct (Customer.id x =? Opportunity.customer_id o) eqn:Hx.
    + exfalso. apply Hfresh. apply Z.eqb_eq in Hx. rewrite Hx, <- Hid.
      now apply in_map.
    + now apply IH.
Qed.

(** The View verdict on a customer, for a REGIONAL or BRANCH user. *)
Lemma regional_branch_customer_verdict db rank depth u r :
  is_authenticated u = true ->
  access_level u = REGIONAL \/ access_level u = BRANCH ->
  acyclic_by db rank ->
  (rank (organizational_unit_id u) < depth)%nat ->
  query_get db (organizational_unit_id u) <> None ->
  exists verdict,
    AccessControl.can_access_customer db depth u r = Ok verdict /\
    (verdict = true <->
     Customer.organizational_unit_id r = organizational_unit_id u \/
     descendant db (organizational_unit_id u)
                (Customer.organizational_unit_id r)).
Proof.
  intros Hauth Hlevel Hacyc Hdepth Hown.
  destruct (regional_or_branch_levels _ Hlevel) as [Hexec [Hind Hrb]].
  unfold AccessControl.can_access_customer, can_access_organizational_unit.
  rewrite Hind, Hexec, Hrb. simpl.
  set (U := Customer.organizational_unit_id r).
  destruct (organizational_unit_id u =? U) eqn:Hsame.
  - apply Z.eqb_eq in Hsame. exists true. split; [reflexivity|].
    split; auto.
  - apply Z.eqb_neq in Hsame.
    destruct (query_get db (organizational_unit_id u)) as [own|] eqn:Hq;
      [|contradiction].
    apply query_get_some in Hq. destruct Hq as [Hown_in Hown_id].
    destruct (query_get db U) as [target|] eqn:Ht.
    + apply query_get_some in Ht. destruct Ht as [Ht_in Ht_id].
      destruct (get_all_children_total db rank Hacyc depth own) as [cs Hcs];
        [rewrite Hown_id; exact Hdepth|].
      rewrite Hcs. simpl. exists (unit_in target cs). split; [reflexivity|].
      rewrite unit_in_spec, Ht_id.
      rewrite (get_all_children_members _ _ _ _ Hcs U), Hown_id.
      split; [auto | intros [Heq | Hd]; [congruence | exact Hd]].
    + exists false. split; [reflexivity|].
      split; [discriminate|]. intros [Heq | Hd]; [congruence|].
      exfalso.
      destruct (descendant_in_table _ _ _ Hd) as [c [Hc Hid]].
      exact (query_get_none _ _ _ Ht Hc Hid).
Qed.

(** C1, as stated, fails for opportunity records.  The branch manager of
    the Centar branch (unit 3) may view an opportunity whose own
    organizational unit is the Sarajevo region (unit 2), which is neither
    the manager's unit nor below it: the check reads the unit of the
    opportunity's customer. *)
Lemma opportunity_view_goes_by_customer_unit :
  is_authenticated Seed.branch_mgr = true /\
  access_level Seed.branch_mgr = BRANCH /\
  AccessControl.can_view_opportunity (LoggedIn Seed.branch_mgr) Seed.units 5
    [Seed.emir] opp_by_region = Ok true /\
  ~ (Opportunity.organizational_unit_id opp_by_region
     = organizational_unit_id Seed.branch_mgr \/
     descendant Seed.units (organizational_unit_id Seed.branch_mgr)
                (Opportunity.organizational_unit_id opp_by_region)).
Proof.
  split; [reflexivity|]. split; [reflexivity|]. split; [reflexivity|].
  intros [Heq | Hd]; [discriminate|].
  inversion Hd as [c Hin Hpar | c d Hin Hpar _]; simpl in Hin;
    destruct Hin as [<- | [<- | [<- | []]]]; discriminate.
Qed.

(** C1, amended.  For an authenticated REGIONAL or BRANCH user, the View
    check on a customer record of organizational unit U returns, and it
    allows exactly when U is the user's own unit or a descendant of it; the
    View check on an opportunity record returns the verdict of the
    opportunity's customer, so it allows exactly when the customer's unit
    is the user's own or a descendant, whatever unit the opportunity itself
    carries.  The table's parent graph is acyclic, the interpreter has
    stack for its depth, and the user's unit row exists. *)
Theorem regional_branch_view_iff_subtree :
  forall (db : UnitTable) (rank : Z -> nat) (depth : nat) (u : User),
    is_authenticated u = true ->
    access_level u = REGIONAL \/ access_level u = BRANCH ->
    acyclic_by db rank ->
    (rank (organizational_unit_id u) < depth)%nat ->
    query_get db (organizational_unit_id u) <> None ->
    (forall r : Customer.t,
        exists verdict,
          AccessControl.can_view_customer (LoggedIn u) db depth r = Ok verdict /\
          (verdict = true <->
           Customer.organizational_unit_id r = organizational_unit_id u \/
           descendant db (organizational_unit_id u)
                      (Customer.organizational_unit_id r))) /\
    (forall (customers : list Customer.t) (o : Opportunity.t) (c : Customer.t),
        NoDup (map Customer.id customers) ->
        In c customers -> Customer.id c = Opportunity.customer_id o ->
        exists verdict,
          AccessControl.can_view_opportunity (LoggedIn u) db depth customers o
          = Ok verdict /\
          (verdict = true <->
           Customer.organizational_unit_id c = organizational_unit_id u \/
           descendant db (organizational_unit_id u)
                      (Customer.organizational_unit_id c))).
Proof.
  intros db rank depth u Hauth Hlevel Hacyc Hdepth Hown. split.
  - intros r. unfold AccessControl.can_view_customer. rewrite Hauth. simpl.
    now apply (regional_branch_customer_verdict db rank).
  - intros customers o c Hnd Hin Hid.
    unfold AccessControl.can_view_opportunity. rewrite Hauth. simpl.
    rewrite (opportunity_customer_row customers o c Hnd Hin Hid).
    now apply (regional_branch_customer_verdict db rank).
Qed.

(** The seeded regional manager may view the customer of the Centar branch,
    a unit below the Sarajevo region, and the seeded opportunity of that
    customer. *)
Lemma regional_branch_view_iff_subtree_witness :
  (exists verdict,
      AccessControl.can_view_customer (LoggedIn Seed.regional_mgr) Seed.units 5
                                      Seed.emir = Ok verdict /\
      (verdict = true <->
       Customer.organizational_unit_id Seed.emir
       = organizational_unit_id Seed.regional_mgr \/
       descendant Seed.units (organizational_unit_id Seed.regional_mgr)
                  (Customer.organizational_unit_id Seed.emir))) /\
  (exists verdict,
      AccessControl.can_view_opportunity (LoggedIn Seed.regional_mgr)
        Seed.units 5 [Seed.emir] Seed.opp1_stored = Ok verdict /\
      (verdict = true <->
       Customer.organizational_unit_id Seed.emir
       = organizational_unit_id Seed.regional_mgr \/
       descendant Seed.units (organizational_unit_id Seed.regional_mgr)
                  (Customer.organizational_unit_id Seed.emir))).
Proof.
  destruct (regional_branch_view_iff_subtree Seed.units Seed.rank 5
              Seed.regional_mgr) as [Hcust Hopp].
  - reflexivity.
  - left; reflexivity.
  - exact seed_units_acyclic.
  - vm_compute; lia.
  - vm_compute; discriminate.
  - split; [apply Hcust|].
    apply (Hopp [Seed.emir] Seed.opp1_stored Seed.emir).
    + constructor; [intros [] | constructor].
    + left; reflexivity.
    + reflexivity.
Defined.

(** C2.  For an authenticated INDIVIDUAL user and any customer record, View
    and Edit are allowed exactly when the record's owner is the user, and
    Delete and Reassign are denied whatever the owner. *)
Theorem individual_customer_capabilities :
  forall (db : UnitTable) (depth : nat) (u : User) (r : Customer.t),
    is_authenticated u = true ->
    access_level u = INDIVIDUAL ->
    exists view edit,
      AccessControl.can_view_customer (LoggedIn u) db depth r = Ok view /\
      AccessControl.can_edit_customer (LoggedIn u) db depth r = Ok edit /\
      (view = true <-> Customer.owner_id r = user_id u) /\
      (edit = true <-> Customer.owner_id r = user_id u) /\
      AccessControl.can_delete_customer (LoggedIn u) db depth r = Ok false /\
      AccessControl.can_reassign_customer (LoggedIn u) db depth r = Ok false.
Proof.
  intros db depth u r Hauth Hlevel.
  exists (Customer.owner_id r =? user_id u), (Customer.owner_id r =? user_id u).
  unfold AccessControl.can_view_customer, AccessControl.can_access_customer,
    AccessControl.can_edit_customer, AccessControl.can_delete_customer,
    AccessControl.can_reassign_customer.
  rewrite Hauth, Hlevel. simpl.
  repeat split; try (apply Z.eqb_eq); auto.
Qed.

(** [rm1] owns the seeded customer: View and Edit pass, Delete does not. *)
Lemma individual_customer_capabilities_witness :
  exists view edit,
    AccessControl.can_view_customer (LoggedIn Seed.rm1) Seed.units 5 Seed.emir
    = Ok view /\
    AccessControl.can_edit_customer (LoggedIn Seed.rm1) Seed.units 5 Seed.emir
    = Ok edit /\
    (view = true <-> Customer.owner_id Seed.emir = user_id Seed.rm1) /\
    (edit = true <-> Customer.owner_id Seed.emir = user_id Seed.rm1) /\
    AccessControl.can_delete_customer (LoggedIn Seed.rm1) Seed.units 5 Seed.emir
    = Ok false /\
    AccessControl.can_reassign_customer (LoggedIn Seed.rm1) Seed.units 5 Seed.emir
    = Ok false.
Proof.
  apply (individual_customer_capabilities Seed.units 5 Seed.rm1 Seed.emir);
    reflexivity.
Defined.

(** ** Opportunity pipeline *)

Lemma truthy_num_nonzero v : truthy_num (Some v) = true <-> ~ (v == 0)%Q.
Proof.
  unfold truthy_num, Qeq. simpl. rewrite negb_true_iff, Z.eqb_neq. lia.
Qed.

Lemma truthy_number_zero v : truthy_number (Some v) = false <-> is_zero v.
Proof.
  destruct v as [n | x | q]; simpl.
  - rewrite negb_false_iff, Z.eqb_eq. reflexivity.
  - rewrite negb_false_iff. reflexivity.
  - unfold Qeq. simpl. rewrite negb_false_iff, Z.eqb_eq. lia.
Qed.

Lemma truthy_number_nonzero v : truthy_number (Some v) = true <-> ~ is_zero v.
Proof.
  rewrite <- truthy_number_zero.
  destruct (truthy_number (Some v)); split; congruence.
Qed.

(** The quotient [p / 100] exists for every probability of the table. *)
Lemma table_quotient S p :
  Opportunity.stage_probabilities S = Some p ->
  exists x, int_true_div p 100 = Ok x.
Proof.
  destruct S; simpl; intros [= <-]; eexists; vm_compute; reflexivity.
Qed.

Lemma set_expected_revenue_same o :
  Opportunity.set_expected_revenue (Opportunity.expected_revenue o) o = o.
Proof. destruct o; reflexivity. Qed.

(** [update_expected_revenue] returns having assigned at most
    [expected_revenue], or raises having assigned nothing. *)
Lemma update_expected_revenue_cases o :
  (exists er,
      Opportunity.update_expected_revenue o
      = (Opportunity.set_expected_revenue er o, Ok tt)) \/
  (exists e, Opportunity.update_expected_revenue o = (o, Raise e)).
Proof.
  unfold Opportunity.update_expected_revenue.
  destruct (truthy_number (Opportunity.amount o)
            && truthy_int (Opportunity.probability o)).
  - destruct (Opportunity.amount o) as [a|];
      [destruct (Opportunity.probability o) as [p|]|].
    + destruct (Opportunity.revenue_of a p) as [r|e]; [left | right]; eauto.
    + left. exists (Opportunity.expected_revenue o).
      now rewrite set_expected_revenue_same.
    + left. exists (Opportunity.expected_revenue o).
      now rewrite set_expected_revenue_same.
  - left. exists (Opportunity.expected_revenue o).
    now rewrite set_expected_revenue_same.
Qed.

(** [advance_stage] returns with stage, probability, possibly the expected
    revenue and the closing fields assigned, or raises with stage and
    probability assigned and nothing else. *)
Lemma advance_stage_cases o S now :
  (exists er,
      Opportunity.advance_stage o S now
      = (Opportunity.close_if_final S now
           (Opportunity.set_expected_revenue er
              (Opportunity.set_probability (probability_after o S)
                 (Opportunity.set_stage S o))),
         Ok tt)) \/
  (exists p e,
      Opportunity.stage_probabilities S = Some p /\
      Opportunity.advance_stage o S now
      = (Opportunity.set_probability (Some p) (Opportunity.set_stage S o),
         Raise e)).
Proof.
  unfold Opportunity.advance_stage, probability_after.
  destruct (Opportunity.stage_probabilities S) as [p|] eqn:Hp.
  - destruct (update_expected_revenue_cases
                (Opportunity.set_probability (Some p)
                   (Opportunity.set_stage S o))) as [[er ->] | [e ->]].
    + left. exists er. reflexivity.
    + right. exists p, e. auto.
  - left. exists (Opportunity.expected_revenue o).
    destruct o; reflexivity.
Qed.

(** The stage and the active flag in the state [advance_stage] returns. *)
Lemma advance_stage_returned o S now :
  snd (Opportunity.advance_stage o S now) = Ok tt ->
  Opportunity.stage (fst (Opportunity.advance_stage o S now)) = S /\
  Opportunity.is_active (fst (Opportunity.advance_stage o S now))
  = (if closed_stage S then false else Opportunity.is_active o) /\
  Opportunity.actual_revenue (fst (Opportunity.advance_stage o S now))
  = match S with
    | Opportunity.WON => Opportunity.amount o
    | _ => Opportunity.actual_revenue o
    end.
Proof.
  destruct (advance_stage_cases o S now) as [[er ->] | [p [e [_ ->]]]];
    [|discriminate].
  intros _. destruct S; simpl; auto.
Qed.


(** [advance_stage] returns when nothing is multiplied, and when the
    amount is a [float]. *)
Lemma advance_stage_returns o S now :
  float_amount o \/ truthy_number (Opportunity.amount o) = false \/
  S = Opportunity.LOST \/ S = Opportunity.POST_SALE ->
  snd (Opportunity.advance_stage o S now) = Ok tt.
Proof.
  intros Hcase. unfold Opportunity.advance_stage.
  destruct (Opportunity.stage_probabilities S) as [p|] eqn:Hp; [|reflexivity].
  unfold Opportunity.update_expected_revenue. simpl.
  destruct (truthy_number (Opportunity.amount o)) eqn:Ha; simpl;
    [|reflexivity].
  destruct (negb (p =? 0)) eqn:Hp0; simpl; [|reflexivity].
  destruct Hcase as [[x Hx] | [H | [-> | ->]]]; try discriminate.
  - rewrite Hx. unfold Opportunity.revenue_of.
    destruct (table_quotient S p Hp) as [d ->]. reflexivity.
  - simpl in Hp. injection Hp as <-. discriminate.
Qed.

Lemma update_expected_revenue_multiplies o a p :
  Opportunity.amount o = Some a -> Opportunity.probability o = Some p ->
  truthy_number (Some a) = true -> p <> 0 ->
  Opportunity.update_expected_revenue o
  = match Opportunity.revenue_of a p with
    | Ok r => (Opportunity.set_expected_revenue (Some r) o, Ok tt)
    | Raise e => (o, Raise e)
    end.
Proof.
  intros Ha Hp Hta Hp0. unfold Opportunity.update_expected_revenue.
  rewrite Ha, Hp, Hta. simpl.
  apply Z.eqb_neq in Hp0. now rewrite Hp0.
Qed.

Lemma advance_stage_multiplies o S now a p :
  Opportunity.stage_probabilities S = Some p -> p <> 0 ->
  Opportunity.amount o = Some a -> truthy_number (Some a) = true ->
  Opportunity.advance_stage o S now
  = match Opportunity.revenue_of a p with
    | Ok r =>
        (Opportunity.close_if_final S now
           (Opportunity.set_expected_revenue (Some r)
              (Opportunity.set_probability (Some p)
                 (Opportunity.set_stage S o))), Ok tt)
    | Raise e =>
        (Opportunity.set_probability (Some p) (Opportunity.set_stage S o),
         Raise e)
    end.
Proof.
  intros Hp Hp0 Ha Hta. unfold Opportunity.advance_stage. rewrite Hp.
  rewrite (update_expected_revenue_multiplies _ a p); auto.
  destruct (Opportunity.revenue_of a p); reflexivity.
Qed.

(** On a [Decimal] amount other than zero the product raises: the call
    leaves the stage and the probability assigned and nothing else. *)
Lemma advance_stage_decimal_raises o S now p q :
  Opportunity.stage_probabilities S = Some p -> p <> 0 ->
  Opportunity.amount o = Some (PyDecimal q) -> ~ (q == 0)%Q ->
  Opportunity.advance_stage o S now
  = (Opportunity.set_probability (Some p) (Opportunity.set_stage S o),
     Raise decimal_float_error).
Proof.
  intros Hp Hp0 Ha Hq.
  rewrite (advance_stage_multiplies o S now (PyDecimal q) p Hp Hp0 Ha).
  - unfold Opportunity.revenue_of.
    destruct (table_quotient S p Hp) as [d ->]. reflexivity.
  - apply truthy_number_nonzero. exact Hq.
Qed.

Lemma mark_won_decimal_raises o v now q :
  Opportunity.amount o = Some (PyDecimal q) -> ~ (q == 0)%Q ->
  Opportunity.mark_won o v now
  = (Opportunity.set_probability (Some 100)
       (Opportunity.set_stage Opportunity.WON o),
     Raise decimal_float_error).
Proof.
  intros Ha Hq. unfold Opportunity.mark_won.
  rewrite (advance_stage_decimal_raises o Opportunity.WON now 100 q
             eq_refl ltac:(discriminate) Ha Hq).
  reflexivity.
Qed.

(** [app.py] builds [opp1] with the [int] amount 150000 and probability
    60, and [update_expected_revenue()] gives it the [float] 90000.0. *)
Example seed_opp1_expected_revenue :
  Opportunity.update_expected_revenue
    (Opportunity.set_expected_revenue None Seed.opp1)
  = (Seed.opp1, Ok tt).
Proof. vm_compute. reflexivity. Qed.

(** C3.  On the seeded opportunity (amount 150000, probability 60, expected
    revenue 90000), as a request loads it from the table and as [app.py]
    first builds it, [advance_stage(LOST)] returns, stores the table's
    probability 0, and leaves the expected revenue at 90000, which is not
    150000 * 0 / 100: the recomputation is skipped when the probability is
    zero. *)
Theorem advance_stage_lost_keeps_stale_revenue :
  (let run := Opportunity.advance_stage Seed.opp1_stored Opportunity.LOST 100 in
   snd run = Ok tt /\
   Opportunity.stage_probabilities Opportunity.LOST = Some 0 /\
   Opportunity.amount (fst run) = Some (PyDecimal (150000 # 1)) /\
   Opportunity.probability (fst run) = Some 0 /\
   Opportunity.expected_revenue (fst run) = Some (PyDecimal (90000 # 1)) /\
   ~ (90000 # 1 == (150000 # 1) * inject_Z 0 / 100)%Q) /\
  (let run := Opportunity.advance_stage Seed.opp1 Opportunity.LOST 100 in
   snd run = Ok tt /\
   Opportunity.amount (fst run) = Some (PyInt 150000) /\
   Opportunity.probability (fst run) = Some 0 /\
   Opportunity.expected_revenue (fst run) = Some (PyFloat 90000%float) /\
   PrimFloat.eqb 90000%float PrimFloat.zero = false).
Proof.
  split; repeat split. vm_compute. discriminate.
Qed.



Lemma mark_lost_returns o reason notes competitor now :
  snd (Opportunity.mark_lost o reason notes competitor now) = Ok tt /\
  Opportunity.stage (fst (Opportunity.mark_lost o reason notes competitor now))
  = Opportunity.LOST /\
  Opportunity.is_active
    (fst (Opportunity.mark_lost o reason notes competitor now)) = false.
Proof.
  unfold Opportunity.mark_lost.
  pose proof (advance_stage_returns o Opportunity.LOST now) as Hret.
  pose proof (advance_stage_returned o Opportunity.LOST now) as Hadv.
  destruct (Opportunity.advance_stage o Opportunity.LOST now) as [o' [[]|e]];
    simpl in *.
  - destruct (Hadv eq_refl) as [Hs [Ha _]]. auto.
  - discriminate Hret. auto.
Qed.







(** ** Customer funnel *)

(** C5, as stated, fails: the seeded customer already has a
    [customer_date]; reaching CUSTOMER again at a later instant replaces
    it. *)
Lemma restamp_overwrites_customer_date :
  Customer.customer_date Seed.emir = Some 1728000 /\
  Customer.customer_date
    (Customer.advance_stage Seed.emir Customer.CUSTOMER 2592000)
  = Some 2592000 /\
  Customer.customer_date
    (Customer.advance_stage Seed.emir Customer.CUSTOMER 2592000)
  <> Customer.customer_date Seed.emir.
Proof. repeat split. vm_compute. discriminate. Qed.

(** C5, amended.  [advance_stage(customer, S)] sets the stage; for S among
    PROSPECT, LEAD and CUSTOMER it writes the current instant to that
    stage's timestamp on every call, set before or not; the timestamp of
    every other stage is unchanged, so no transition clears one. *)
Theorem customer_advance_stage_timestamps :
  forall (c : Customer.t) (S : Customer.CustomerStage) (now : Z),
    Customer.stage (Customer.advance_stage c S now) = S /\
    (stamped_stage S = true ->
     timestamp_of S (Customer.advance_stage c S now) = Some now) /\
    (forall S', S' <> S ->
       timestamp_of S' (Customer.advance_stage c S now) = timestamp_of S' c) /\
    (stamped_stage S = false ->
     timestamp_of S (Customer.advance_stage c S now) = timestamp_of S c) /\
    (forall S', timestamp_of S' c <> None ->
       timestamp_of S' (Customer.advance_stage c S now) <> None).
Proof.
  intros c S now. split; [destruct S; reflexivity|].
  split; [destruct S; simpl; intros H; try discriminate; reflexivity|].
  split; [intros S' Hne; destruct S, S'; simpl; try reflexivity; contradiction|].
  split; [destruct S; simpl; intros H; try discriminate; reflexivity|].
  intros S' Hset. destruct S, S'; simpl in *; try assumption; discriminate.
Qed.

(** The seeded customer moved back to LEAD: [lead_date] is written, the
    earlier [customer_date] stays. *)
Lemma customer_advance_stage_timestamps_witness :
  timestamp_of Customer.LEAD
    (Customer.advance_stage Seed.emir Customer.LEAD 2592000) = Some 2592000 /\
  timestamp_of Customer.CUSTOMER
    (Customer.advance_stage Seed.emir Customer.LEAD 2592000)
  = Some 1728000.
Proof.
  destruct (customer_advance_stage_timestamps Seed.emir Customer.LEAD 2592000)
    as [_ [Hset [Hother _]]].
  split; [apply Hset; reflexivity|].
  rewrite (Hother Customer.CUSTOMER); [reflexivity | discriminate].
Defined.

Lemma contact_points_bounds days : 0 <= contact_points days <= 20.
Proof.
  destruct days as [d|]; simpl; [|lia].
  destruct (d <? 7); [lia|]. destruct (d <? 30); lia.
Qed.

Lemma points_bounds b n : 0 <= n -> 0 <= points b n <= n.
Proof. destruct b; simpl; lia. Qed.

(** The score as the sum the source accumulates. *)
Lemma score_as_sum opps now c :
  snd (Customer.calculate_qualification_score opps now c)
  = spec_score (email_present c) (phone_present c) (assets_present c)
               (Customer.credit_score c) (days_since_contact now c)
               (Customer.active_opportunity_count opps c).
Proof.
  unfold Customer.calculate_qualification_score, spec_score, email_present,
    phone_present, assets_present, days_since_contact, credit_points,
    contact_points, points. simpl.
  replace (1 <=? Customer.active_opportunity_count opps c)
    with (0 <? Customer.active_opportunity_count opps c)
    by (destruct (0 <? _) eqn:E1, (1 <=? _) eqn:E2; try reflexivity;
        rewrite ?Z.ltb_lt, ?Z.ltb_ge, ?Z.leb_le, ?Z.leb_gt in *; lia).
  destruct (truthy_str (Customer.email c));
    destruct (truthy_str (Customer.mobile c) || truthy_str (Customer.phone c));
    destruct (truthy_num (Customer.estimated_assets c));
    destruct (Customer.credit_score c) as [cs|]; simpl;
    try (destruct (negb (cs =? 0)) eqn:Hcs; simpl;
         [|apply negb_false_iff, Z.eqb_eq in Hcs; subst cs; simpl]);
    try destruct (600 <? cs);
    destruct (Customer.last_contact_date c) as [last|];
    try destruct (Customer.timedelta_days now last <? 7);
    try destruct (Customer.timedelta_days now last <? 30);
    destruct (0 <? Customer.active_opportunity_count opps c);
    reflexivity.
Qed.

Lemma award_points (b : bool) (P : Prop) n :
  (b = true <-> P) -> award P n (points b n).
Proof.
  intros H. destruct b; [left | right]; simpl; split; try reflexivity.
  - now apply H.
  - intros HP. apply H in HP. discriminate.
Qed.

Lemma truthy_str_nonempty s : truthy_str s = true <-> nonempty s.
Proof.
  unfold nonempty. destruct s as [[|a rest]|]; simpl; split.
  - discriminate.
  - intros [t [[= <-] Ht]]. now elim Ht.
  - intros _. eexists. split; [reflexivity | discriminate].
  - reflexivity.
  - discriminate.
  - intros [t [[=] _]].
Qed.

Lemma truthy_num_amount q : truthy_num q = true <-> nonzero_amount q.
Proof.
  unfold nonzero_amount. destruct q as [v|].
  - rewrite truthy_num_nonzero. split.
    + intros H. exists v. auto.
    + intros [v' [[= <-] H]]. exact H.
  - simpl. split; [discriminate | intros [v [[=] _]]].
Qed.

Lemma whole_days_below now last days :
  (Customer.timedelta_days now last <? days) = true
  <-> now - last < days * 86400.
Proof.
  unfold Customer.timedelta_days. rewrite Z.ltb_lt.
  pose proof (Z.div_mod (now - last) 86400 ltac:(lia)).
  pose proof (Z.mod_pos_bound (now - last) 86400 ltac:(lia)).
  split; intros; nia.
Qed.

Lemma active_count_positive opps c :
  (1 <=? Customer.active_opportunity_count opps c) = true
  <-> has_active_opportunity opps c.
Proof.
  unfold Customer.active_opportunity_count, Customer.opportunities,
    has_active_opportunity.
  rewrite Z.leb_le. split.
  - intros Hpos.
    destruct (filter Opportunity.is_active
                (filter (fun o => Opportunity.customer_id o =? Customer.id c)
                        opps)) as [|o rest] eqn:Hf; [simpl in Hpos; lia|].
    assert (Hin : In o (o :: rest)) by (left; reflexivity).
    rewrite <- Hf in Hin. apply filter_In in Hin. destruct Hin as [Hin Hact].
    apply filter_In in Hin. destruct Hin as [Hin Hid].
    apply Z.eqb_eq in Hid. exists o. auto.
  - intros [o [Hin [Hid Hact]]].
    assert (Hf : In o (filter Opportunity.is_active
                         (filter (fun o => Opportunity.customer_id o
                                           =? Customer.id c) opps))).
    { apply filter_In. split; [|exact Hact].
      apply filter_In. split; [exact Hin | now apply Z.eqb_eq]. }
    destruct (filter Opportunity.is_active _) as [|x rest]; [destruct Hf|].
    simpl List.length. lia.
Qed.

(** C10, as stated, fails for a customer whose estimated assets are
    present and zero: with no other signal the claim's sum is 20, and
    [calculate_qualification_score] returns 0. *)
Lemma zero_assets_score_nothing :
  Customer.estimated_assets zero_assets_customer = Some (0 # 1) /\
  Customer.estimated_assets zero_assets_customer <> None /\
  snd (Customer.calculate_qualification_score [] 2592000 zero_assets_customer)
  = 0 /\
  snd (Customer.calculate_qualification_score [] 2592000 zero_assets_customer)
  <> Z.min (0 + 0 + 20 + 0 + 0 + 0) 100.
Proof. repeat split; discriminate. Qed.

(** C10, amended.  [calculate_qualification_score] returns, and stores, a
    value in [0, 100] equal to the sum, clamped to 100, of 10 for an email
    that is not empty, 10 for a mobile or phone number that is not empty,
    20 for estimated assets that are set and not zero, 20 for a credit
    score above 600, 20 for a last contact less than 7 whole days before
    now (else 10 when less than 30, else 0), and 20 when some active
    opportunity of the table belongs to the customer. *)
Theorem qualification_score_formula :
  forall (opps : list Opportunity.t) (now : Z) (c : Customer.t),
    exists for_email for_phone for_assets for_credit for_contact for_active,
      award (nonempty (Customer.email c)) 10 for_email /\
      award (nonempty (Customer.mobile c) \/ nonempty (Customer.phone c)) 10
            for_phone /\
      award (nonzero_amount (Customer.estimated_assets c)) 20 for_assets /\
      award (credit_above 600 c) 20 for_credit /\
      (contacted_within 7 now c /\ for_contact = 20 \/
       ~ contacted_within 7 now c /\ contacted_within 30 now c /\
       for_contact = 10 \/
       ~ contacted_within 30 now c /\ for_contact = 0) /\
      award (has_active_opportunity opps c) 20 for_active /\
      snd (Customer.calculate_qualification_score opps now c)
      = Z.min (for_email + for_phone + for_assets + for_credit + for_contact
               + for_active) 100 /\
      Customer.qualification_score
        (fst (Customer.calculate_qualification_score opps now c))
      = Some (snd (Customer.calculate_qualification_score opps now c)) /\
      0 <= snd (Customer.calculate_qualification_score opps now c) <= 100.
Proof.
  intros opps now c.
  exists (points (email_present c) 10), (points (phone_present c) 10),
    (points (assets_present c) 20), (credit_points (Customer.credit_score c)),
    (contact_points (days_since_contact now c)),
    (points (1 <=? Customer.active_opportunity_count opps c) 20).
  split; [apply award_points, truthy_str_nonempty|].
  split.
  { apply award_points. unfold phone_present.
    rewrite orb_true_iff, !truthy_str_nonempty. reflexivity. }
  split; [apply award_points, truthy_num_amount|].
  split.
  { unfold credit_points, credit_above.
    destruct (Customer.credit_score c) as [cs|].
    - apply award_points. rewrite Z.ltb_lt. split.
      + intros H. exists cs. auto.
      + intros [cs' [[= <-] H]]. exact H.
    - right. split; [intros [cs [[=] _]] | reflexivity]. }
  split.
  { unfold contact_points, days_since_contact, contacted_within.
    destruct (Customer.last_contact_date c) as [last|].
    - destruct (Customer.timedelta_days now last <? 7) eqn:H7.
      + left. split; [|reflexivity]. exists last. split; [reflexivity|].
        now apply whole_days_below.
      + assert (N7 : ~ (exists l, Some last = Some l /\ now - l < 7 * 86400)).
        { intros [l [[= <-] Hl]]. apply whole_days_below in Hl. congruence. }
        destruct (Customer.timedelta_days now last <? 30) eqn:H30.
        * right. left. split; [exact N7|]. split; [|reflexivity].
          exists last. split; [reflexivity|]. now apply whole_days_below.
        * right. right. split; [|reflexivity].
          intros [l [[= <-] Hl]]. apply whole_days_below in Hl. congruence.
    - right. right. split; [intros [l [[=] _]] | reflexivity]. }
  split; [apply award_points, active_count_positive|].
  split; [apply score_as_sum|]. split; [reflexivity|].
  rewrite score_as_sum. unfold spec_score.
  pose proof (points_bounds (email_present c) 10).
  pose proof (points_bounds (phone_present c) 10).
  pose proof (points_bounds (assets_present c) 20).
  pose proof (points_bounds (1 <=? Customer.active_opportunity_count opps c) 20).
  pose proof (contact_points_bounds (days_since_contact now c)).
  assert (0 <= credit_points (Customer.credit_score c) <= 20).
  { unfold credit_points. destruct (Customer.credit_score c);
      [apply points_bounds|]; lia. }
  lia.
Qed.

(** The seeded customer scores 10 (email) + 10 (phone) + 20 (one active
    opportunity). *)
Example seed_customer_score :
  snd (Customer.calculate_qualification_score [Seed.opp1] 2592000 Seed.emir)
  = 40.
Proof. reflexivity. Qed.

(** ** Task status *)

(** C6, as stated, fails: [complete] on the cancelled task is not rejected
    and changes its status to COMPLETED. *)
Lemma complete_overrides_cancelled :
  Task.status cancelled_task1 = Task.CANCELLED /\
  Task.status (Task.complete cancelled_task1 2592000) = Task.COMPLETED /\
  Task.status (Task.complete cancelled_task1 2592000)
  <> Task.status cancelled_task1.
Proof. repeat split. discriminate. Qed.

(** C6, amended.  On a task whose status is COMPLETED or CANCELLED,
    [check_overdue] changes nothing and returns False; [complete] is not
    rejected: it sets the status to COMPLETED, so a COMPLETED task keeps its
    status and a CANCELLED one becomes COMPLETED. *)
Theorem closed_task_operations :
  forall (t : Task.t) (now : Z),
    Task.status t = Task.COMPLETED \/ Task.status t = Task.CANCELLED ->
    Task.check_overdue t now = (t, false) /\
    Task.status (Task.complete t now) = Task.COMPLETED /\
    (Task.status t = Task.COMPLETED ->
     Task.status (Task.complete t now) = Task.status t).
Proof.
  intros t now Hclosed. unfold Task.check_overdue.
  split; [destruct Hclosed as [-> | ->]; reflexivity|].
  split; [reflexivity | intros ->; reflexivity].
Qed.

Lemma closed_task_operations_witness :
  Task.check_overdue cancelled_task1 2851200 = (cancelled_task1, false) /\
  Task.status (Task.complete cancelled_task1 2851200) = Task.COMPLETED /\
  (Task.status cancelled_task1 = Task.COMPLETED ->
   Task.status (Task.complete cancelled_task1 2851200)
   = Task.status cancelled_task1).
Proof.
  apply (closed_task_operations cancelled_task1 2851200).
  right; reflexivity.
Defined.

(** ** Bulk scoping *)

(** C9.  For an authenticated INDIVIDUAL user the task filter returns, and
    it keeps exactly the rows of the query whose [assigned_to_id] or
    [assigned_by_id] is the user's id, in the query's order. *)
Theorem individual_task_scope :
  forall (db : UnitTable) (users : list User) (depth : nat)
         (u : User) (query : list Task.t),
    is_authenticated u = true ->
    access_level u = INDIVIDUAL ->
    exists rows,
      QueryFilters.apply_task_filter (LoggedIn u) db users depth query
      = Ok rows /\
      rows = filter (fun t => (Task.assigned_to_id t =? user_id u)
                              || (Task.assigned_by_id t =? user_id u)) query /\
      forall t, In t rows <->
                In t query /\
                (Task.assigned_to_id t = user_id u \/
                 Task.assigned_by_id t = user_id u).
Proof.
  intros db users depth u query Hauth Hlevel.
  unfold QueryFilters.apply_task_filter. rewrite Hauth, Hlevel. simpl.
  eexists. split; [reflexivity|]. split; [reflexivity|].
  intros t. rewrite filter_In, orb_true_iff, !Z.eqb_eq. reflexivity.
Qed.

(** [rm1] sees the seeded task, assigned to them, and not a task between
    two other users. *)
Lemma individual_task_scope_witness :
  exists rows,
    QueryFilters.apply_task_filter (LoggedIn Seed.rm1) Seed.units Seed.users 5
      [Seed.task1; Task.mk 2 Task.PENDING 3 2 2764800 false None 0 None None]
    = Ok rows /\
    rows = [Seed.task1].
Proof.
  destruct (individual_task_scope Seed.units Seed.users 5 Seed.rm1
              [Seed.task1;
               Task.mk 2 Task.PENDING 3 2 2764800 false None 0 None None]
              eq_refl eq_refl) as [rows [Hrun [Hrows _]]].
  exists rows. split; [exact Hrun | exact Hrows].
Defined.

(** ** Audit trail *)

(** C7, as stated, fails twice.  With [rm1] logged in, a view failing with
    an [AssertionError] that has no message gets one entry with
    [success = false] whose error message is the empty string.  With no
    user logged in, a failing view gets no entry at all.  In both runs the
    error reaches the caller. *)
Lemma audited_failure_without_message_or_user :
  (let run := Audit.audit_action string "view" "customer"
                (failing_view bare_assertion) [("id"%string, 1)]
                (seed_world (LoggedIn Seed.rm1)) in
   snd run = Raise bare_assertion /\
   exists entry,
     Audit.audit_logs (fst run) = [entry] /\
     Audit.success entry = false /\
     Audit.error_message entry = Some EmptyString) /\
  (let run := Audit.audit_action string "view" "customer"
                (failing_view key_error) [("id"%string, 1)]
                (seed_world AnonymousUser) in
   snd run = Raise key_error /\
   Audit.audit_logs (fst run) = []).
Proof.
  split.
  - split; [reflexivity|]. eexists. repeat split.
  - split; reflexivity.
Qed.

Lemma log_action_commits w user action rtype rid descr old new ok msg :
  Audit.commit_failure w = None ->
  exists entry line,
    Audit.log_action w user action rtype rid descr old new ok msg
    = (Audit.with_entry entry line w, Ok entry) /\
    Audit.success entry = ok /\ Audit.error_message entry = msg.
Proof.
  intros Hcommit. unfold Audit.log_action. rewrite Hcommit.
  do 2 eexists. split; [reflexivity|]. split; reflexivity.
Qed.

Lemma log_action_fails w user action rtype rid descr old new ok msg e :
  Audit.commit_failure w = Some e ->
  Audit.log_action w user action rtype rid descr old new ok msg = (w, Raise e).
Proof.
  intros Hcommit. unfold Audit.log_action. rewrite Hcommit. reflexivity.
Qed.

(** C7, amended.  Let the view leave the world [w1] with an outcome.
    With a user logged in: when the outcome is an exception [e] (an
    [Exception]) and the commit goes through, the wrapper appends exactly
    one entry to [audit_logs], with [success = false] and [str(e)] as error
    message, writes nothing to the application log, and raises [e]; when
    the commit raises an [Exception], no entry is appended, the line
    ["Audit logging failed: ..."] goes to the application log, and the
    outcome, returned value or error, is the view's.  With no user logged
    in the wrapper writes nothing at all and passes the outcome on. *)
Theorem audited_failure_is_logged :
  forall (V : Type) (action rtype : string) (f : Audit.view V)
         (kwargs : list (string * Z)) (w w1 : Audit.World)
         (outcome : result V),
    f kwargs w = (w1, outcome) ->
    let run := Audit.audit_action V action rtype f kwargs w in
    (authenticated (Audit.current_user w1) = true ->
     (forall e, outcome = Raise e -> is_exception e = true ->
        Audit.commit_failure w1 = None ->
        exists entry,
          snd run = Raise e /\
          Audit.audit_logs (fst run) = Audit.audit_logs w1 ++ [entry] /\
          Audit.success entry = false /\
          Audit.error_message entry = Some (exn_str e) /\
          Audit.app_logger (fst run) = Audit.app_logger w1) /\
     (forall audit_error,
        Audit.commit_failure w1 = Some audit_error ->
        is_exception audit_error = true ->
        snd run = outcome /\
        Audit.audit_logs (fst run) = Audit.audit_logs w1 /\
        Audit.audit_logger (fst run) = Audit.audit_logger w1 /\
        Audit.app_logger (fst run)
        = Audit.app_logger w1
          ++ [("Audit logging failed: " ++ exn_str audit_error)%string])) /\
    (authenticated (Audit.current_user w1) = false -> run = (w1, outcome)).
Proof.
  intros V action rtype f kwargs w w1 outcome Hrun run. subst run.
  unfold Audit.audit_action. rewrite Hrun.
  set (verdict := match outcome with
                  | Ok _ => (true, None)
                  | Raise e =>
                      if is_exception e then (false, Some (exn_str e))
                      else (true, None)
                  end).
  split.
  - intros Hauth.
    destruct (Audit.current_user w1) as [|u] eqn:Hcu; [discriminate|].
    simpl in Hauth. split.
    + intros e -> Hexc Hcommit. subst verdict. rewrite Hexc.
      cbv beta iota zeta. unfold authenticated. rewrite Hauth.
      destruct (log_action_commits w1 (Some u) action rtype
                  (or_int (or_int (Audit.kwargs_get kwargs "id")
                                  (Audit.kwargs_get kwargs "customer_id"))
                          (Audit.kwargs_get kwargs "opportunity_id"))
                  (Some (action ++ " " ++ rtype)%string) None None false
                  (Some (exn_str e)) Hcommit)
        as [entry [line [Hlog [Hok Hmsg]]]].
      rewrite Hlog. exists entry. cbv beta iota zeta. simpl. auto.
    + intros audit_error Hcommit Hexc.
      destruct verdict as [ok msg].
      cbv beta iota zeta. unfold authenticated. rewrite Hauth.
      rewrite (log_action_fails _ _ _ _ _ _ _ _ _ _ _ Hcommit), Hexc.
      simpl. auto.
  - intros Hanon. destruct verdict as [ok msg].
    cbv beta iota zeta. rewrite Hanon. reflexivity.
Qed.

(** [rm1] opens a customer whose stage name is unknown: one entry, failed,
    with the [KeyError]'s text, and the [KeyError] raised.  With the
    database locked the page is returned and the application log gets the
    line.  Without a login the failing view leaves no trace. *)
Lemma audited_failure_is_logged_witness :
  (exists entry,
      snd (Audit.audit_action string "view" "customer" (failing_view key_error)
             [("id"%string, 1)] (seed_world (LoggedIn Seed.rm1)))
      = Raise key_error /\
      Audit.audit_logs
        (fst (Audit.audit_action string "view" "customer"
                (failing_view key_error)
                [("id"%string, 1)] (seed_world (LoggedIn Seed.rm1))))
      = [] ++ [entry] /\
      Audit.success entry = false /\
      Audit.error_message entry = Some "'x'"%string) /\
  Audit.app_logger
    (fst (Audit.audit_action string "view" "customer" page_view
            [("id"%string, 1)] (locked_world (LoggedIn Seed.rm1))))
  = [] ++ ["Audit logging failed: database is locked"%string] /\
  Audit.audit_action string "view" "customer" (failing_view key_error)
    [("id"%string, 1)] (seed_world AnonymousUser)
  = (seed_world AnonymousUser, Raise key_error).
Proof.
  split; [|split].
  - destruct (audited_failure_is_logged string "view" "customer"
                (failing_view key_error) [("id"%string, 1)]
                (seed_world (LoggedIn Seed.rm1))
                (seed_world (LoggedIn Seed.rm1))
                (Raise key_error) eq_refl) as [Hin _].
    destruct (Hin eq_refl) as [Hlogged _].
    destruct (Hlogged key_error eq_refl eq_refl eq_refl)
      as [entry [Hr [Hl [Hs [Hm _]]]]].
    exists entry. auto.
  - destruct (audited_failure_is_logged string "view" "customer"
                page_view [("id"%string, 1)]
                (locked_world (LoggedIn Seed.rm1))
                (locked_world (LoggedIn Seed.rm1))
                (Ok "customers/view.html"%string) eq_refl) as [Hin _].
    destruct (Hin eq_refl) as [_ Hlocked].
    destruct (Hlocked operational_error eq_refl eq_refl) as [_ [_ [_ Happ]]].
    exact Happ.
  - destruct (audited_failure_is_logged string "view" "customer"
                (failing_view key_error) [("id"%string, 1)]
                (seed_world AnonymousUser) (seed_world AnonymousUser)
                (Raise key_error) eq_refl) as [_ Hout].
    exact (Hout eq_refl).
Defined.

(** With the database locked, the view's page is still returned, nothing is
    written to [audit_logs], and the failure is in the application log. *)
Example audit_commit_failure_absorbed :
  Audit.audit_action string "view" "customer" page_view [("id"%string, 1)]
    (locked_world (LoggedIn Seed.rm1))
  = (Audit.with_app_error "Audit logging failed: database is locked"
       (locked_world (LoggedIn Seed.rm1)),
     Ok "customers/view.html"%string).
Proof. reflexivity. Qed.

(** The line the audit logger gets for a failed view. *)
Example audit_logger_line :
  Audit.audit_logger
    (fst (Audit.audit_action string "view" "customer" (failing_view key_error)
            [("id"%string, 1)] (seed_world (LoggedIn Seed.rm1))))
  = ["User: rm1, Action: view, Resource: customer:1, Success: False, Error: 'x'"%string].
Proof. reflexivity. Qed.

(** * Further properties of the modelled code *)

(** ** More on the organizational-unit tree *)

Lemma descendant_rank db rank a d :
  acyclic_by db rank -> descendant db a d -> (rank d < rank a)%nat.
Proof.
  intros Hacyc Hd.
  induction Hd as [a c Hc Hpar | a c d Hc Hpar Hd IH].
  - exact (Hacyc c a Hc Hpar).
  - specialize (Hacyc c a Hc Hpar). lia.
Qed.

Lemma unique_row db r r' :
  unique_ids db -> In r db -> In r' db -> unit_id r = unit_id r' -> r = r'.
Proof.
  unfold unique_ids. induction db as [|x db IH]; simpl; intros Hnd Hr Hr' Heq;
    [contradiction|].
  apply NoDup_cons_iff in Hnd. destruct Hnd as [Hx Hnd].
  destruct Hr as [<- | Hr], Hr' as [<- | Hr']; auto.
  - exfalso. apply Hx. rewrite Heq. now apply in_map.
  - exfalso. apply Hx. rewrite <- Heq. now apply in_map.
Qed.

(** A descendant seen from below: its row, and that row's parent. *)
Lemma descendant_parent db a d :
  descendant db a d ->
  exists r p, In r db /\ unit_id r = d /\ unit_parent_id r = Some p /\
              (p = a \/ descendant db a p).
Proof.
  intros Hd. induction Hd as [a c Hc Hpar | a c d Hc Hpar Hd IH].
  - exists c, a. auto.
  - destruct IH as [r [p [Hr [Hid [Hp Hup]]]]]. exists r, p.
    repeat split; auto. right. destruct Hup as [-> | Hup].
    + now apply descendant_child.
    + now apply descendant_below with c.
Qed.

(** With a primary key, two ancestors of one unit lie on one line. *)
Lemma ancestors_comparable db a b d :
  unique_ids db -> descendant db a d -> descendant db b d ->
  a = b \/ descendant db a b \/ descendant db b a.
Proof.
  intros Huniq Ha. revert b.
  induction Ha as [a c Hc Hpar | a c d Hc Hpar Hd IH]; intros b Hb.
  - destruct (descendant_parent _ _ _ Hb) as [r [p [Hr [Hid [Hp Hup]]]]].
    assert (r = c) by (apply (unique_row db); auto). subst r.
    rewrite Hpar in Hp. injection Hp as <-.
    destruct Hup as [-> | Hup]; auto.
  - destruct (IH b Hb) as [<- | [Hcb | Hbc]].
    + right; left. now apply descendant_child.
    + right; left. now apply descendant_below with c.
    + destruct (descendant_parent _ _ _ Hbc) as [r [p [Hr [Hid [Hp Hup]]]]].
      assert (r = c) by (apply (unique_row db); auto). subst r.
      rewrite Hpar in Hp. injection Hp as <-.
      destruct Hup as [-> | Hup]; auto.
Qed.

Lemma sibling_not_below db rank u c1 c2 :
  acyclic_by db rank -> unique_ids db ->
  In c1 db -> unit_parent_id c1 = Some u ->
  In c2 db -> unit_parent_id c2 = Some u ->
  ~ descendant db (unit_id c1) (unit_id c2).
Proof.
  intros Hacyc Huniq Hc1 Hp1 Hc2 Hp2 Hd.
  destruct (descendant_parent _ _ _ Hd) as [r [p [Hr [Hid [Hp Hup]]]]].
  assert (r = c2) by (apply (unique_row db); auto). subst r.
  rewrite Hp2 in Hp. injection Hp as <-.
  pose proof (Hacyc c1 u Hc1 Hp1) as Hlt.
  destruct Hup as [-> | Hup]; [lia|].
  pose proof (descendant_rank _ _ _ _ Hacyc Hup). lia.
Qed.

(** [get_all_children] returns rows of the table. *)
Lemma get_all_children_rows db depth :
  forall u l, get_all_children depth db u = Ok l ->
  forall x, In x l -> In x db.
Proof.
  induction depth as [|depth IH]; simpl; intros u l Hl x Hx; [discriminate|].
  apply (extend_each_members _ _ _ Hl) in Hx.
  destruct Hx as [c [Hc [-> | [sub [Hsub Hx]]]]].
  - apply children_spec in Hc. tauto.
  - exact (IH c sub Hsub x Hx).
Qed.

(** The loop's result has distinct ids when each child's block
    [child :: sub] has, and blocks of children with different ids share no
    id. *)
Lemma extend_each_distinct rec cs l :
  extend_each rec cs = Ok l ->
  NoDup (map unit_id cs) ->
  (forall c sub, In c cs -> rec c = Ok sub -> NoDup (map unit_id (c :: sub))) ->
  (forall c1 c2 x y,
      In c1 cs -> In c2 cs ->
      (x = c1 \/ exists sub, rec c1 = Ok sub /\ In x sub) ->
      (y = c2 \/ exists sub, rec c2 = Ok sub /\ In y sub) ->
      unit_id x = unit_id y -> unit_id c1 = unit_id c2) ->
  NoDup (map unit_id l).
Proof.
  revert l. induction cs as [|child rest IH]; simpl; intros l H Hcs Hblock Hsep.
  - injection H as <-. constructor.
  - destruct (rec child) as [sub|e] eqn:Hsub; simpl in H; [|discriminate].
    destruct (extend_each rec rest) as [tl|e] eqn:Htl; simpl in H; [|discriminate].
    injection H as <-. apply NoDup_cons_iff in Hcs. destruct Hcs as [Hhead Hcs].
    change (NoDup (map unit_id ((child :: sub) ++ tl))). rewrite map_app.
    apply NoDup_app.
    + apply Hblock; auto.
    + apply (IH tl eq_refl Hcs).
      * intros c s Hc. apply Hblock. now right.
      * intros c1 c2 x y H1 H2. apply Hsep; now right.
    + intros k Hk Hk'. apply in_map_iff in Hk, Hk'.
      destruct Hk as [x [Hx Hxin]], Hk' as [y [Hy Hyin]].
      apply (extend_each_members _ _ _ Htl) in Hyin.
      destruct Hyin as [c [Hc Hyc]].
      assert (Heq : unit_id child = unit_id c).
      { apply (Hsep child c x y); auto.
        - destruct Hxin as [<- | Hxin]; [now left | right; eauto].
        - congruence. }
      apply Hhead. rewrite Heq. now apply in_map.
Qed.

Lemma get_all_children_distinct :
  forall (db : UnitTable) (rank : Z -> nat) (depth : nat)
         (u : OrganizationalUnit) (l : list OrganizationalUnit),
    acyclic_by db rank ->
    unique_ids db ->
    get_all_children depth db u = Ok l ->
    NoDup (map unit_id l).
Proof.
  intros db rank depth u l Hacyc Huniq. revert u l.
  induction depth as [|depth IH]; simpl; intros u l H; [discriminate|].
  assert (Hbelow : forall c x sub,
             get_all_children depth db c = Ok sub -> In x sub ->
             descendant db (unit_id c) (unit_id x)).
  { intros c x sub Hsub Hx.
    apply (get_all_children_members _ _ _ _ Hsub). eauto. }
  apply (extend_each_distinct _ _ _ H).
  - unfold children.
    clear -Huniq. unfold unique_ids in Huniq.
    induction db as [|r db IHdb]; simpl; [constructor|].
    apply NoDup_cons_iff in Huniq. destruct Huniq as [Hr Hdb].
    destruct (opt_eqb (unit_parent_id r) (unit_id u)); simpl; auto.
    constructor; auto. intros Hin. apply Hr.
    apply in_map_iff in Hin. destruct Hin as [x [Hx Hxin]].
    apply filter_In in Hxin. rewrite <- Hx. apply in_map. tauto.
  - intros c sub Hc Hsub. simpl. constructor; [|exact (IH c sub Hsub)].
    intros Hin. apply in_map_iff in Hin. destruct Hin as [x [Hx Hxin]].
    pose proof (descendant_rank _ _ _ _ Hacyc (Hbelow c x sub Hsub Hxin)).
    rewrite Hx in *. lia.
  - intros c1 c2 x y Hc1 Hc2 Hx Hy Hxy.
    apply children_spec in Hc1, Hc2.
    destruct Hc1 as [Hc1 Hp1], Hc2 as [Hc2 Hp2].
    destruct Hx as [-> | [s1 [Hs1 Hx]]], Hy as [-> | [s2 [Hs2 Hy]]].
    + exact Hxy.
    + exfalso. apply (sibling_not_below db rank (unit_id u) c2 c1); auto.
      rewrite Hxy. exact (Hbelow c2 y s2 Hs2 Hy).
    + exfalso. apply (sibling_not_below db rank (unit_id u) c1 c2); auto.
      rewrite <- Hxy. exact (Hbelow c1 x s1 Hs1 Hx).
    + pose proof (Hbelow c1 x s1 Hs1 Hx) as H1.
      pose proof (Hbelow c2 y s2 Hs2 Hy) as H2. rewrite <- Hxy in H2.
      destruct (ancestors_comparable _ _ _ _ Huniq H1 H2) as [E | [E | E]];
        [exact E | exfalso | exfalso].
      * apply (sibling_not_below db rank (unit_id u) c1 c2); auto.
      * apply (sibling_not_below db rank (unit_id u) c2 c1); auto.
Qed.

(** X1.  In an acyclic table with a primary key, and with stack for the
    depth of the tree, [get_all_children] returns; the list holds rows of
    the table, names exactly the units that descend from the given one, and
    names none twice. *)
Theorem get_all_children_lists_each_descendant_once :
  forall (db : UnitTable) (rank : Z -> nat) (depth : nat)
         (u : OrganizationalUnit),
    acyclic_by db rank ->
    unique_ids db ->
    (rank (unit_id u) < depth)%nat ->
    exists l,
      get_all_children depth db u = Ok l /\
      (forall x, In x l -> In x db) /\
      (forall k, In k (map unit_id l) <-> descendant db (unit_id u) k) /\
      NoDup (map unit_id l).
Proof.
  intros db rank depth u Hacyc Huniq Hdepth.
  destruct (get_all_children_total db rank Hacyc depth u Hdepth) as [l Hl].
  exists l. split; [exact Hl|]. split; [|split].
  - exact (get_all_children_rows db depth u l Hl).
  - intros k. rewrite <- (get_all_children_members _ _ _ _ Hl k), in_map_iff.
    split; intros [x [H1 H2]]; exists x; auto.
  - exact (get_all_children_distinct db rank depth u l Hacyc Huniq Hl).
Qed.

Lemma seed_units_unique : unique_ids Seed.units.
Proof.
  unfold unique_ids. simpl.
  repeat constructor; simpl; intros H; intuition discriminate.
Qed.

(** Below the seeded bank: the region and the branch. *)
Lemma get_all_children_lists_each_descendant_once_witness :
  exists l,
    get_all_children 5 Seed.units Seed.bank = Ok l /\
    (forall x, In x l -> In x Seed.units) /\
    (forall k, In k (map unit_id l)
               <-> descendant Seed.units (unit_id Seed.bank) k) /\
    NoDup (map unit_id l).
Proof.
  apply (get_all_children_lists_each_descendant_once Seed.units Seed.rank 5
           Seed.bank).
  - exact seed_units_acyclic.
  - exact seed_units_unique.
  - vm_compute; lia.
Defined.

Lemma descendant_trans db a b d :
  descendant db a b -> descendant db b d -> descendant db a d.
Proof.
  intros Hab Hbd. induction Hab as [a c Hc Hpar | a c b Hc Hpar Hcb IH].
  - now apply descendant_below with c.
  - apply descendant_below with c; auto.
Qed.

Lemma extend_each_raises rec cs c e :
  In c cs -> rec c = Raise e ->
  exists c' e', In c' cs /\ rec c' = Raise e' /\
                extend_each rec cs = Raise e'.
Proof.
  induction cs as [|child rest IH]; intros Hc Hraise; [destruct Hc|].
  simpl. destruct (rec child) as [sub|e0] eqn:Hchild.
  - destruct Hc as [<- | Hc]; [congruence|].
    destruct (IH Hc Hraise) as [c' [e' [Hc' [He' Hrun]]]].
    exists c', e'. simpl. rewrite Hrun. auto.
  - exists child, e0. simpl. auto.
Qed.

(** X2.  Where the parent ids close a cycle through a unit,
    [get_all_children] of that unit raises [RecursionError], however much
    stack it is given. *)
Theorem get_all_children_on_a_cycle_raises :
  forall (db : UnitTable) (depth : nat) (u : OrganizationalUnit),
    descendant db (unit_id u) (unit_id u) ->
    get_all_children depth db u = Raise RecursionError.
Proof.
  intros db. induction depth as [|depth IH]; intros u Hcycle; [reflexivity|].
  simpl.
  assert (Hchild : exists c, In c (children db u) /\
                             descendant db (unit_id c) (unit_id c)).
  { inversion Hcycle as [c Hc Hpar Hid | c d Hc Hpar Hbelow Hd].
    - exists c. split.
      + apply children_spec. split; [exact Hc | now rewrite Hpar, Hid].
      + rewrite Hid. exact Hcycle.
    - exists c. split; [apply children_spec; auto|].
      apply descendant_trans with (unit_id u); [exact Hbelow|].
      now apply descendant_child. }
  destruct Hchild as [c [Hc Hcc]].
  destruct (extend_each_raises _ _ c _ Hc (IH c Hcc)) as [c' [e' [Hc' [He' Hrun]]]].
  rewrite Hrun. f_equal.
  assert (Hall : forall n x e, get_all_children n db x = Raise e ->
                               e = RecursionError).
  { clear. induction n as [|n IHn]; simpl; intros x e H; [congruence|].
    induction (children db x) as [|child rest IHrest]; simpl in H;
      [discriminate|].
    destruct (get_all_children n db child) as [sub|e0] eqn:Hsub; simpl in H.
    - destruct (extend_each (get_all_children n db) rest) as [tl|e1]; simpl in H;
        [discriminate|]. injection H as <-. now apply IHrest.
    - injection H as <-. exact (IHn child e0 Hsub). }
  exact (Hall depth c' e' He').
Qed.

(** Two units naming each other as parent. *)
Lemma get_all_children_on_a_cycle_raises_witness :
  get_all_children 1000
    [mk_unit 1 "A" (Some 2); mk_unit 2 "B" (Some 1)] (mk_unit 1 "A" (Some 2))
  = Raise RecursionError.
Proof.
  apply get_all_children_on_a_cycle_raises.
  apply descendant_below with (mk_unit 2 "B" (Some 1)).
  - simpl; auto.
  - reflexivity.
  - apply (descendant_child _ 2 (mk_unit 1 "A" (Some 2))).
    + simpl; auto.
    + reflexivity.
Defined.

Lemma parent_some db c a :
  parent db c = Some a ->
  In a db /\ unit_parent_id c = Some (unit_id a).
Proof.
  unfold parent. destruct (unit_parent_id c) as [p|]; [|discriminate].
  intros H. apply query_get_some in H. destruct H as [Hin <-]. auto.
Qed.

(** The loop keeps what it has, puts a chain in front of it, and stops at
    a unit without parent row. *)
Lemma climb_chain db steps :
  forall current b rest result,
    climb steps db current (b :: rest) = Some result ->
    current = parent db b ->
    chain db (b :: rest) ->
    chain db result /\
    (exists ups, result = ups ++ b :: rest) /\
    (exists root tl, result = root :: tl /\ parent db root = None).
Proof.
  induction steps as [|steps IH]; intros current b rest result H Hcur Hchain.
  - destruct current as [c|]; simpl in H; [discriminate|].
    injection H as <-. split; [exact Hchain|].
    split; [exists []; reflexivity | exists b, rest; auto].
  - destruct current as [c|]; simpl in H.
    + destruct (IH _ _ _ _ H eq_refl (chain_cons db c b rest (eq_sym Hcur) Hchain))
        as [Hres [[ups Hups] Hroot]].
      split; [exact Hres|]. split; [|exact Hroot].
      exists (ups ++ [c]). rewrite <- app_assoc. exact Hups.
    + injection H as <-. split; [exact Hchain|].
      split; [exists []; reflexivity | exists b, rest; auto].
Qed.

(** The loop ends when ranks grow towards the parents and are bounded. *)
Lemma climb_total db rank bound :
  acyclic_by db rank ->
  (forall r, In r db -> (rank (unit_id r) <= bound)%nat) ->
  forall steps current path,
    (forall c, current = Some c ->
               In c db /\ (bound - rank (unit_id c) < steps)%nat) ->
    exists result, climb steps db current path = Some result.
Proof.
  intros Hacyc Hbound. induction steps as [|steps IH]; intros current path Hc.
  - destruct current as [c|]; simpl; [|eauto].
    destruct (Hc c eq_refl) as [_ Hlt]. lia.
  - destruct current as [c|]; simpl; [|eauto].
    destruct (Hc c eq_refl) as [Hin Hlt].
    apply IH. intros a Ha. apply parent_some in Ha. destruct Ha as [Hain Hpar].
    split; [exact Hain|].
    pose proof (Hacyc c _ Hin Hpar). pose proof (Hbound a Hain). lia.
Qed.

Lemma chain_ancestors db self :
  In self db ->
  forall ups, chain db (ups ++ [self]) ->
  forall a, In a ups ->
            In a db /\ descendant db (unit_id a) (unit_id self).
Proof.
  intros Hself. induction ups as [|x ups IH]; intros Hchain a Ha; [easy|].
  simpl in Hchain. inversion Hchain as [u Hu | x' b rest Hpar Hrest [Hx Hb]].
  - destruct ups; discriminate.
  - subst x'. apply parent_some in Hpar. destruct Hpar as [Hxin Hxpar].
    assert (Hbelow : In b db /\ descendant db (unit_id x) (unit_id self)).
    { destruct ups as [|y ups'].
      - simpl in Hb. injection Hb as <-. split; [exact Hself|].
        now apply descendant_child.
      - simpl in Hb. injection Hb as <- Hrest'.
        rewrite Hrest' in Hrest. simpl in IH.
        assert (Hchain' : chain db (b :: ups' ++ [self])) by exact Hrest.
        destruct (IH Hchain' b (or_introl eq_refl)) as [Hbin Hbd].
        split; [exact Hbin|]. now apply descendant_below with b. }
    destruct Ha as [<- | Ha]; [split; [exact Hxin | apply Hbelow]|].
    apply IH; [|exact Ha]. rewrite <- Hb. exact Hrest.
Qed.

(** X3.  In an acyclic table whose ranks are bounded, [get_hierarchy_path]
    returns once the loop may run more often than the bound.  The path ends
    with the unit itself, each unit in it is the parent row of the next, it
    starts at a unit without parent row, and, for a unit of the table,
    every other unit on the path is a row of the table that the unit
    descends from. *)
Theorem hierarchy_path_is_root_chain :
  forall (db : UnitTable) (rank : Z -> nat) (bound steps : nat)
         (self : OrganizationalUnit),
    acyclic_by db rank ->
    (forall r, In r db -> (rank (unit_id r) <= bound)%nat) ->
    (bound < steps)%nat ->
    exists ups root tl,
      get_hierarchy_path steps db self = Some (ups ++ [self]) /\
      chain db (ups ++ [self]) /\
      ups ++ [self] = root :: tl /\ parent db root = None /\
      (In self db ->
       forall a, In a ups ->
                 In a db /\ descendant db (unit_id a) (unit_id self)).
Proof.
  intros db rank bound steps self Hacyc Hbound Hsteps.
  unfold get_hierarchy_path.
  destruct (climb_total db rank bound Hacyc Hbound steps (parent db self) [self])
    as [result Hrun].
  { intros c Hc. apply parent_some in Hc. destruct Hc as [Hin _].
    split; [exact Hin | lia]. }
  destruct (climb_chain db steps _ _ _ _ Hrun eq_refl (chain_one db self))
    as [Hchain [[ups Hups] [root [tl [Hroot Hnone]]]]].
  subst result. exists ups, root, tl. rewrite Hrun.
  split; [reflexivity|]. split; [exact Hchain|]. split; [exact Hroot|].
  split; [exact Hnone|].
  intros Hself a Ha. exact (chain_ancestors db self Hself ups Hchain a Ha).
Qed.

Lemma seed_rank_bound : forall r, In r Seed.units -> (Seed.rank (unit_id r) <= 2)%nat.
Proof.
  intros r Hin. simpl in Hin.
  destruct Hin as [<- | [<- | [<- | []]]]; vm_compute; lia.
Qed.

(** The path of the seeded branch: bank, region, branch. *)
Lemma hierarchy_path_is_root_chain_witness :
  exists ups root tl,
    get_hierarchy_path 5 Seed.units Seed.branch_centar
    = Some (ups ++ [Seed.branch_centar]) /\
    chain Seed.units (ups ++ [Seed.branch_centar]) /\
    ups ++ [Seed.branch_centar] = root :: tl /\
    parent Seed.units root = None /\
    (In Seed.branch_centar Seed.units ->
     forall a, In a ups ->
               In a Seed.units /\
               descendant Seed.units (unit_id a) (unit_id Seed.branch_centar)).
Proof.
  apply (hierarchy_path_is_root_chain Seed.units Seed.rank 2 5
           Seed.branch_centar).
  - exact seed_units_acyclic.
  - exact seed_rank_bound.
  - lia.
Defined.

Lemma query_get_in db r :
  In r db -> exists r', query_get db (unit_id r) = Some r'.
Proof.
  intros Hin. destruct (query_get db (unit_id r)) as [r'|] eqn:Hq; [eauto|].
  exfalso. exact (query_get_none _ _ _ Hq Hin eq_refl).
Qed.

(** The unit check for a REGIONAL or BRANCH user: it returns, and allows
    the user's own unit and the units below it. *)
Lemma can_access_unit_subtree db rank depth u k :
  access_level u = REGIONAL \/ access_level u = BRANCH ->
  acyclic_by db rank ->
  (rank (organizational_unit_id u) < depth)%nat ->
  query_get db (organizational_unit_id u) <> None ->
  exists verdict,
    can_access_organizational_unit depth db u k = Ok verdict /\
    (verdict = true <->
     k = organizational_unit_id u \/ descendant db (organizational_unit_id u) k).
Proof.
  intros Hlevel Hacyc Hdepth Hown.
  destruct (regional_or_branch_levels _ Hlevel) as [Hexec [_ Hrb]].
  unfold can_access_organizational_unit. rewrite Hexec, Hrb.
  destruct (organizational_unit_id u =? k) eqn:Hsame.
  - apply Z.eqb_eq in Hsame. exists true. split; [reflexivity|]. split; auto.
  - apply Z.eqb_neq in Hsame.
    destruct (query_get db (organizational_unit_id u)) as [own|] eqn:Hq;
      [|contradiction].
    apply query_get_some in Hq. destruct Hq as [Hown_in Hown_id].
    destruct (query_get db k) as [target|] eqn:Ht.
    + apply query_get_some in Ht. destruct Ht as [Ht_in Ht_id].
      destruct (get_all_children_total db rank Hacyc depth own) as [cs Hcs];
        [rewrite Hown_id; exact Hdepth|].
      rewrite Hcs. simpl. exists (unit_in target cs). split; [reflexivity|].
      rewrite unit_in_spec, Ht_id.
      rewrite (get_all_children_members _ _ _ _ Hcs k), Hown_id.
      split; [auto | intros [Heq | Hd]; [congruence | exact Hd]].
    + exists false. split; [reflexivity|].
      split; [discriminate|]. intros [Heq | Hd]; [congruence|].
      exfalso. destruct (descendant_in_table _ _ _ Hd) as [c [Hc Hid]].
      exact (query_get_none _ _ _ Ht Hc Hid).
Qed.

(** X4.  A REGIONAL or BRANCH user whose unit is on the hierarchy path of
    a unit of the table may access that unit. *)
Theorem unit_on_hierarchy_path_grants_access :
  forall (db : UnitTable) (rank : Z -> nat) (steps depth : nat) (u : User)
         (target a : OrganizationalUnit) (path : list OrganizationalUnit),
    access_level u = REGIONAL \/ access_level u = BRANCH ->
    acyclic_by db rank ->
    (rank (organizational_unit_id u) < depth)%nat ->
    In target db ->
    get_hierarchy_path steps db target = Some path ->
    In a path ->
    unit_id a = organizational_unit_id u ->
    can_access_organizational_unit depth db u (unit_id target) = Ok true.
Proof.
  intros db rank steps depth u target a path Hlevel Hacyc Hdepth Htarget
    Hpath Ha Hunit.
  destruct (climb_chain db steps _ _ _ _ Hpath eq_refl (chain_one db target))
    as [Hchain [[ups Hups] _]]. subst path.
  assert (Hrel : In a db /\
                 (unit_id target = unit_id a \/
                  descendant db (unit_id a) (unit_id target))).
  { apply in_app_or in Ha. destruct Ha as [Ha | [<- | []]].
    - destruct (chain_ancestors db target Htarget ups Hchain a Ha); auto.
    - auto. }
  destruct Hrel as [Hain Hrel]. rewrite Hunit in Hrel.
  destruct (can_access_unit_subtree db rank depth u (unit_id target)
              Hlevel Hacyc Hdepth) as [verdict [Hrun Hiff]].
  { destruct (query_get_in db a Hain) as [r' Hr']. rewrite <- Hunit, Hr'.
    discriminate. }
  rewrite Hrun. f_equal. apply Hiff. exact Hrel.
Qed.

(** The regional manager's unit is on the path of the Centar branch. *)
Lemma unit_on_hierarchy_path_grants_access_witness :
  can_access_organizational_unit 5 Seed.units Seed.regional_mgr
    (unit_id Seed.branch_centar) = Ok true.
Proof.
  apply (unit_on_hierarchy_path_grants_access Seed.units Seed.rank 5 5
           Seed.regional_mgr Seed.branch_centar Seed.region_sarajevo
           [Seed.bank; Seed.region_sarajevo; Seed.branch_centar]).
  - left; reflexivity.
  - exact seed_units_acyclic.
  - vm_compute; lia.
  - simpl; auto.
  - reflexivity.
  - simpl; auto.
  - reflexivity.
Defined.

(** ** More on the access policy *)

(** X5.  For an authenticated EXECUTIVE user every check allows: the four
    customer capabilities and the approval of an opportunity, for any
    record, any table of units and any stack depth, and the three
    function-level checks. *)
Theorem executive_is_allowed_everything :
  forall (db : UnitTable) (depth : nat) (u : User)
         (c : Customer.t) (o : Opportunity.t),
    is_authenticated u = true ->
    access_level u = EXECUTIVE ->
    AccessControl.can_view_customer (LoggedIn u) db depth c = Ok true /\
    AccessControl.can_edit_customer (LoggedIn u) db depth c = Ok true /\
    AccessControl.can_delete_customer (LoggedIn u) db depth c = Ok true /\
    AccessControl.can_reassign_customer (LoggedIn u) db depth c = Ok true /\
    AccessControl.can_approve_opportunity (LoggedIn u) db depth o = Ok true /\
    AccessControl.can_view_sensitive_data (LoggedIn u) = true /\
    AccessControl.can_set_targets (LoggedIn u) = true /\
    AccessControl.can_view_analytics (LoggedIn u) = true.
Proof.
  intros db depth u c o Hauth Hlevel.
  unfold AccessControl.can_view_customer, AccessControl.can_access_customer,
    AccessControl.can_edit_customer, AccessControl.can_delete_customer,
    AccessControl.can_reassign_customer, AccessControl.can_approve_opportunity,
    AccessControl.can_view_sensitive_data, AccessControl.can_set_targets,
    AccessControl.can_view_analytics, can_access_organizational_unit.
  rewrite Hauth, Hlevel. simpl. repeat split.
Qed.

(** The seeded admin, over an empty table of units and with no stack. *)
Lemma executive_is_allowed_everything_witness :
  AccessControl.can_view_customer (LoggedIn Seed.admin) [] 0 Seed.emir = Ok true /\
  AccessControl.can_edit_customer (LoggedIn Seed.admin) [] 0 Seed.emir = Ok true /\
  AccessControl.can_delete_customer (LoggedIn Seed.admin) [] 0 Seed.emir = Ok true /\
  AccessControl.can_reassign_customer (LoggedIn Seed.admin) [] 0 Seed.emir
  = Ok true /\
  AccessControl.can_approve_opportunity (LoggedIn Seed.admin) [] 0 Seed.opp1
  = Ok true /\
  AccessControl.can_view_sensitive_data (LoggedIn Seed.admin) = true /\
  AccessControl.can_set_targets (LoggedIn Seed.admin) = true /\
  AccessControl.can_view_analytics (LoggedIn Seed.admin) = true.
Proof.
  apply (executive_is_allowed_everything [] 0 Seed.admin Seed.emir Seed.opp1);
    reflexivity.
Defined.

(** X6.  For a user who is not authenticated every check denies without
    raising, the three bulk filters select no row, and no user id is
    accessible, whatever the tables hold. *)
Theorem unauthenticated_sees_nothing :
  forall (cu : CurrentUser) (db : UnitTable) (depth : nat) (users : list User)
         (customers : list Customer.t) (c : Customer.t) (o : Opportunity.t)
         (cq : list Customer.t) (oq : list Opportunity.t) (tq : list Task.t),
    authenticated cu = false ->
    AccessControl.can_view_customer cu db depth c = Ok false /\
    AccessControl.can_edit_customer cu db depth c = Ok false /\
    AccessControl.can_delete_customer cu db depth c = Ok false /\
    AccessControl.can_reassign_customer cu db depth c = Ok false /\
    AccessControl.can_view_opportunity cu db depth customers o = Ok false /\
    AccessControl.can_approve_opportunity cu db depth o = Ok false /\
    AccessControl.can_view_sensitive_data cu = false /\
    AccessControl.can_set_targets cu = false /\
    AccessControl.can_view_analytics cu = false /\
    AccessControl.get_accessible_user_ids cu db depth users = Ok [] /\
    QueryFilters.apply_customer_filter cu db depth cq = Ok [] /\
    QueryFilters.apply_opportunity_filter cu db depth oq = Ok [] /\
    QueryFilters.apply_task_filter cu db users depth tq = Ok [].
Proof.
  intros cu db depth users customers c o cq oq tq Hauth.
  destruct cu as [|u]; simpl in Hauth.
  - repeat split.
  - unfold AccessControl.can_view_customer, AccessControl.can_edit_customer,
      AccessControl.can_delete_customer, AccessControl.can_reassign_customer,
      AccessControl.can_view_opportunity, AccessControl.can_approve_opportunity,
      AccessControl.can_view_sensitive_data, AccessControl.can_set_targets,
      AccessControl.can_view_analytics, AccessControl.get_accessible_user_ids,
      QueryFilters.apply_customer_filter, QueryFilters.apply_opportunity_filter,
      QueryFilters.apply_access_filter, QueryFilters.apply_task_filter.
    rewrite Hauth. simpl. repeat split.
Qed.

Lemma unauthenticated_sees_nothing_witness :
  AccessControl.can_view_customer AnonymousUser Seed.units 5 Seed.emir
  = Ok false /\
  QueryFilters.apply_customer_filter AnonymousUser Seed.units 5 [Seed.emir]
  = Ok [] /\
  QueryFilters.apply_task_filter AnonymousUser Seed.units Seed.users 5
    [Seed.task1] = Ok [].
Proof.
  destruct (unauthenticated_sees_nothing AnonymousUser Seed.units 5 Seed.users
              [Seed.emir] Seed.emir Seed.opp1 [Seed.emir] [Seed.opp1]
              [Seed.task1] eq_refl)
    as [Hview [_ [_ [_ [_ [_ [_ [_ [_ [_ [Hcust [_ Htask]]]]]]]]]]]].
  split; [exact Hview | split; [exact Hcust | exact Htask]].
Defined.

(** X7.  For every current user, Edit is decided exactly as View, and
    Reassign exactly as Delete; whoever may delete a customer may also
    view it; Delete, Reassign and the approval of an opportunity are never
    allowed to an INDIVIDUAL user. *)
Theorem capability_checks_relate :
  forall (cu : CurrentUser) (db : UnitTable) (depth : nat)
         (c : Customer.t) (o : Opportunity.t),
    AccessControl.can_edit_customer cu db depth c
    = AccessControl.can_view_customer cu db depth c /\
    AccessControl.can_reassign_customer cu db depth c
    = AccessControl.can_delete_customer cu db depth c /\
    (AccessControl.can_delete_customer cu db depth c = Ok true ->
     AccessControl.can_view_customer cu db depth c = Ok true) /\
    (forall u, cu = LoggedIn u -> access_level u = INDIVIDUAL ->
       AccessControl.can_delete_customer cu db depth c = Ok false /\
       AccessControl.can_reassign_customer cu db depth c = Ok false /\
       AccessControl.can_approve_opportunity cu db depth o = Ok false).
Proof.
  intros cu db depth c o.
  unfold AccessControl.can_edit_customer, AccessControl.can_view_customer,
    AccessControl.can_reassign_customer, AccessControl.can_delete_customer,
    AccessControl.can_approve_opportunity, AccessControl.can_access_customer.
  split; [reflexivity|]. split; [reflexivity|]. split.
  - destruct cu as [|u]; [discriminate|].
    destruct (negb (is_authenticated u)); [discriminate|].
    destruct (level_eqb (access_level u) INDIVIDUAL); [discriminate | auto].
  - intros u -> Hlevel. rewrite Hlevel. simpl.
    destruct (negb (is_authenticated u)); auto.
Qed.

(** The seeded branch manager may delete, hence view, the seeded
    customer. *)
Lemma capability_checks_relate_witness :
  AccessControl.can_view_customer (LoggedIn Seed.branch_mgr) Seed.units 5
    Seed.emir = Ok true.
Proof.
  destruct (capability_checks_relate (LoggedIn Seed.branch_mgr) Seed.units 5
              Seed.emir Seed.opp1) as [_ [_ [Hdel _]]].
  apply Hdel. reflexivity.
Defined.

(** X8.  The three function-level checks agree, and they hold exactly for
    an authenticated user whose level is not INDIVIDUAL. *)
Theorem function_level_checks :
  forall (cu : CurrentUser),
    AccessControl.can_set_targets cu = AccessControl.can_view_sensitive_data cu /\
    AccessControl.can_view_analytics cu
    = AccessControl.can_view_sensitive_data cu /\
    (AccessControl.can_view_sensitive_data cu = true <->
     exists u, cu = LoggedIn u /\ is_authenticated u = true /\
               access_level u <> INDIVIDUAL).
Proof.
  intros cu. split; [reflexivity|]. split; [reflexivity|].
  unfold AccessControl.can_view_sensitive_data.
  destruct cu as [|u].
  - split; [discriminate | intros [u [H _]]; discriminate].
  - destruct (is_authenticated u) eqn:Hauth; simpl.
    + split.
      * intros H. exists u. split; [reflexivity|]. split; [exact Hauth|].
        intros Hl. rewrite Hl in H. discriminate.
      * intros [u' [[= <-] [_ Hl]]].
        destruct (access_level u); try reflexivity. contradiction.
    + split; [discriminate|]. intros [u' [[= <-] [H _]]]. congruence.
Qed.

Lemma string_length_append (a b : string) :
  String.length (a ++ b) = (String.length a + String.length b)%nat.
Proof. induction a as [|c a IH]; simpl; [reflexivity | now rewrite IH]. Qed.

Lemma stars_length n : String.length (AccessControl.stars n) = n.
Proof. induction n as [|n IH]; simpl; [reflexivity | now rewrite IH]. Qed.

(** A string is its first [n] characters followed by the rest. *)
Lemma substring_split (s : string) :
  forall n, (n <= String.length s)%nat ->
    s = (substring 0 n s ++ substring n (String.length s - n) s)%string /\
    String.length (substring 0 n s) = n.
Proof.
  induction s as [|c s IH]; intros n Hn; simpl in Hn.
  - assert (n = 0)%nat by lia. subst n. simpl. auto.
  - destruct n as [|n]; simpl.
    + split; [|reflexivity]. f_equal.
      destruct (IH 0%nat) as [Hs _]; [lia|].
      rewrite Nat.sub_0_r in Hs. simpl in Hs.
      destruct s; simpl in *; [reflexivity | exact Hs].
    + destruct (IH n) as [Hs Hl]; [lia|]. split; [|now rewrite Hl].
      f_equal. exact Hs.
Qed.

(** X9.  For a user who may not see sensitive data, the mask of an account
    number of more than four characters keeps the length, shows the last
    four characters and replaces each character before them by a star; a
    shorter, non-empty number becomes four stars; a missing or empty one
    the empty string.  For a user who may see sensitive data a non-empty
    number comes back unchanged. *)
Theorem mask_account_number_hides_all_but_last_four :
  forall (cu : CurrentUser) (number : string),
    number <> EmptyString ->
    (AccessControl.can_view_sensitive_data cu = true ->
     AccessControl.mask_account_number cu (Some number) = number) /\
    (AccessControl.can_view_sensitive_data cu = false ->
     (String.length number <= 4)%nat ->
     AccessControl.mask_account_number cu (Some number) = "****"%string) /\
    (AccessControl.can_view_sensitive_data cu = false ->
     (4 < String.length number)%nat ->
     exists hidden shown,
       number = (hidden ++ shown)%string /\
       String.length shown = 4%nat /\
       AccessControl.mask_account_number cu (Some number)
       = (AccessControl.stars (String.length hidden) ++ shown)%string /\
       String.length (AccessControl.mask_account_number cu (Some number))
       = String.length number) /\
    AccessControl.mask_account_number cu None = EmptyString /\
    AccessControl.mask_account_number cu (Some EmptyString) = EmptyString.
Proof.
  intros cu number Hne. unfold AccessControl.mask_account_number.
  destruct number as [|c rest]; [contradiction|].
  set (number := String c rest) in *.
  split; [intros ->; reflexivity|]. split; [|split; [|split; reflexivity]].
  - intros -> Hshort.
    destruct (4 <? String.length number)%nat eqn:E; [|reflexivity].
    apply Nat.ltb_lt in E. lia.
  - intros -> Hlong.
    destruct (4 <? String.length number)%nat eqn:E;
      [|apply Nat.ltb_ge in E; lia].
    destruct (substring_split number (String.length number - 4)) as [Hs Hl];
      [lia|].
    replace (String.length number - (String.length number - 4))%nat
      with 4%nat in Hs by lia.
    exists (substring 0 (String.length number - 4) number),
           (substring (String.length number - 4) 4 number).
    assert (Hshown : String.length
                       (substring (String.length number - 4) 4 number) = 4%nat).
    { apply (f_equal String.length) in Hs.
      rewrite string_length_append, Hl in Hs. lia. }
    split; [exact Hs|]. split; [exact Hshown|]. rewrite Hl.
    split; [reflexivity|].
    rewrite string_length_append, stars_length, Hshown. lia.
Qed.

(** [rm1], an INDIVIDUAL user, sees the last four digits of an account
    number of twelve. *)
Lemma mask_account_number_hides_all_but_last_four_witness :
  exists hidden shown,
    "161000012345"%string = (hidden ++ shown)%string /\
    String.length shown = 4%nat /\
    AccessControl.mask_account_number (LoggedIn Seed.rm1)
      (Some "161000012345"%string)
    = (AccessControl.stars (String.length hidden) ++ shown)%string /\
    String.length (AccessControl.mask_account_number (LoggedIn Seed.rm1)
                     (Some "161000012345"%string))
    = String.length "161000012345"%string.
Proof.
  destruct (mask_account_number_hides_all_but_last_four (LoggedIn Seed.rm1)
              "161000012345"%string) as [_ [_ [Hlong _]]].
  - discriminate.
  - apply Hlong; [reflexivity | vm_compute; lia].
Defined.

Example mask_twelve_digits :
  AccessControl.mask_account_number (LoggedIn Seed.rm1)
    (Some "161000012345"%string) = "********2345"%string.
Proof. reflexivity. Qed.

(** ** More on bulk scoping *)

Lemma id_in_spec k ids : QueryFilters.id_in k ids = true <-> In k ids.
Proof.
  unfold QueryFilters.id_in. rewrite existsb_exists. split.
  - intros [x [Hx Heq]]. apply Z.eqb_eq in Heq. now subst.
  - intros H. exists k. split; [exact H | apply Z.eqb_refl].
Qed.

Lemma unit_ids_of_rows l :
  QueryFilters.unit_ids (map Some l) = Ok (map unit_id l).
Proof. induction l as [|x l IH]; simpl; [reflexivity | now rewrite IH]. Qed.

(** The units a REGIONAL or BRANCH user reaches: the own row and its
    descendants, whose ids are the own id and the ids below it. *)
Lemma accessible_units_subtree db rank depth u :
  access_level u = REGIONAL \/ access_level u = BRANCH ->
  acyclic_by db rank ->
  (rank (organizational_unit_id u) < depth)%nat ->
  query_get db (organizational_unit_id u) <> None ->
  exists own cs,
    get_accessible_organizational_units depth db u
    = Ok (map Some (own :: cs)) /\
    In own db /\ unit_id own = organizational_unit_id u /\
    forall k, In k (map unit_id (own :: cs)) <->
              k = organizational_unit_id u \/
              descendant db (organizational_unit_id u) k.
Proof.
  intros Hlevel Hacyc Hdepth Hown.
  destruct (regional_or_branch_levels _ Hlevel) as [Hexec [_ Hrb]].
  unfold get_accessible_organizational_units. rewrite Hexec, Hrb.
  destruct (query_get db (organizational_unit_id u)) as [own|] eqn:Hq;
    [|contradiction].
  apply query_get_some in Hq. destruct Hq as [Hown_in Hown_id].
  destruct (get_all_children_total db rank Hacyc depth own) as [cs Hcs];
    [rewrite Hown_id; exact Hdepth|].
  rewrite Hcs. simpl. exists own, cs. split; [reflexivity|].
  split; [exact Hown_in|]. split; [exact Hown_id|].
  intros k. pose proof (get_all_children_members _ _ _ _ Hcs k) as Hmem.
  rewrite Hown_id in Hmem. rewrite <- Hmem. simpl. rewrite in_map_iff.
  split.
  - intros [Hk | [x [Hx Hin]]]; [left; congruence | right; exists x; auto].
  - intros [Hk | [x [Hin Hx]]]; [left; congruence | right; exists x; auto].
Qed.

(** X10.  For every authenticated user, the customer filter keeps exactly
    the rows of the query that the View check allows.  The table of units
    is acyclic, the stack suffices, and the user's unit row exists. *)
Theorem customer_filter_agrees_with_view :
  forall (db : UnitTable) (rank : Z -> nat) (depth : nat) (u : User)
         (query : list Customer.t),
    is_authenticated u = true ->
    acyclic_by db rank ->
    (rank (organizational_unit_id u) < depth)%nat ->
    query_get db (organizational_unit_id u) <> None ->
    exists rows,
      QueryFilters.apply_customer_filter (LoggedIn u) db depth query = Ok rows /\
      forall r, In r rows <->
                In r query /\
                AccessControl.can_view_customer (LoggedIn u) db depth r
                = Ok true.
Proof.
  intros db rank depth u query Hauth Hacyc Hdepth Hown.
  unfold QueryFilters.apply_customer_filter, QueryFilters.apply_access_filter,
    AccessControl.can_view_customer, AccessControl.can_access_customer.
  rewrite Hauth. simpl.
  destruct (access_level u) eqn:Hlevel; simpl.
  - exists query. split; [reflexivity|]. intros r.
    unfold can_access_organizational_unit. rewrite Hlevel. simpl. tauto.
  - destruct (accessible_units_subtree db rank depth u) as
        [own [cs [Hacc [_ [_ Hids]]]]]; auto.
    rewrite Hacc. cbv beta iota delta [Py.bind].
    rewrite unit_ids_of_rows.
    eexists. split; [reflexivity|]. intros r.
    rewrite filter_In, id_in_spec.
    destruct (can_access_unit_subtree db rank depth u
                (Customer.organizational_unit_id r)) as [v [Hrun Hiff]]; auto.
    rewrite Hrun, Hids, <- Hiff.
    split; intros [Hq Hv]; split; auto; [now subst v | now injection Hv].
  - destruct (accessible_units_subtree db rank depth u) as
        [own [cs [Hacc [_ [_ Hids]]]]]; auto.
    rewrite Hacc. cbv beta iota delta [Py.bind].
    rewrite unit_ids_of_rows.
    eexists. split; [reflexivity|]. intros r.
    rewrite filter_In, id_in_spec.
    destruct (can_access_unit_subtree db rank depth u
                (Customer.organizational_unit_id r)) as [v [Hrun Hiff]]; auto.
    rewrite Hrun, Hids, <- Hiff.
    split; intros [Hq Hv]; split; auto; [now subst v | now injection Hv].
  - unfold get_accessible_organizational_units. rewrite Hlevel. simpl.
    destruct (query_get db (organizational_unit_id u)) as [own|];
      [|contradiction].
    simpl. eexists. split; [reflexivity|]. intros r.
    rewrite filter_In. split; intros [Hq Hv]; split; auto.
    + now rewrite Hv.
    + now injection Hv.
Qed.

(** The seeded branch manager lists the seeded customer. *)
Lemma customer_filter_agrees_with_view_witness :
  exists rows,
    QueryFilters.apply_customer_filter (LoggedIn Seed.branch_mgr) Seed.units 5
      [Seed.emir] = Ok rows /\
    forall r, In r rows <->
              In r [Seed.emir] /\
              AccessControl.can_view_customer (LoggedIn Seed.branch_mgr)
                Seed.units 5 r = Ok true.
Proof.
  apply (customer_filter_agrees_with_view Seed.units Seed.rank 5
           Seed.branch_mgr [Seed.emir]).
  - reflexivity.
  - exact seed_units_acyclic.
  - vm_compute; lia.
  - vm_compute; discriminate.
Defined.

(** X11.  For an authenticated INDIVIDUAL user the opportunity filter goes
    by the opportunity's own owner, while the View check of an opportunity
    goes by the owner of its customer: an opportunity is listed exactly
    when the user owns it, and may be viewed exactly when the user owns its
    customer. *)
Theorem opportunity_listing_and_view_use_different_owners :
  forall (db : UnitTable) (depth : nat) (u : User)
         (customers : list Customer.t) (query : list Opportunity.t)
         (o : Opportunity.t) (c : Customer.t),
    is_authenticated u = true ->
    access_level u = INDIVIDUAL ->
    query_get db (organizational_unit_id u) <> None ->
    AccessControl.opportunity_customer customers o = Some c ->
    exists rows,
      QueryFilters.apply_opportunity_filter (LoggedIn u) db depth query
      = Ok rows /\
      (In o rows <-> In o query /\ Opportunity.owner_id o = user_id u) /\
      (AccessControl.can_view_opportunity (LoggedIn u) db depth customers o
       = Ok true <-> Customer.owner_id c = user_id u).
Proof.
  intros db depth u customers query o c Hauth Hlevel Hown Hcust.
  unfold QueryFilters.apply_opportunity_filter, QueryFilters.apply_access_filter,
    AccessControl.can_view_opportunity, AccessControl.can_access_customer,
    get_accessible_organizational_units.
  rewrite Hauth, Hlevel, Hcust. simpl.
  destruct (query_get db (organizational_unit_id u)) as [own|]; [|contradiction].
  simpl. eexists. split; [reflexivity|]. split.
  - rewrite filter_In, Z.eqb_eq. reflexivity.
  - split; [intros [= H]; now apply Z.eqb_eq | intros H; f_equal; now apply Z.eqb_eq].
Qed.

(** [rm1] owns an opportunity on a customer of the branch manager: it is
    listed for [rm1], and [rm1] may not view it. *)
Lemma opportunity_listing_and_view_use_different_owners_witness :
  exists rows,
    QueryFilters.apply_opportunity_filter (LoggedIn Seed.rm1) Seed.units 5
      [opp_on_ana] = Ok rows /\
    In opp_on_ana rows /\
    AccessControl.can_view_opportunity (LoggedIn Seed.rm1) Seed.units 5
      [Seed.emir; ana] opp_on_ana <> Ok true.
Proof.
  destruct (opportunity_listing_and_view_use_different_owners Seed.units 5
              Seed.rm1 [Seed.emir; ana] [opp_on_ana] opp_on_ana ana
              eq_refl eq_refl) as [rows [Hrun [Hlist Hview]]].
  - vm_compute; discriminate.
  - reflexivity.
  - exists rows. split; [exact Hrun|]. split.
    + apply Hlist. split; [left; reflexivity | reflexivity].
    + intros H. apply Hview in H. vm_compute in H. discriminate.
Defined.

(** X12.  Whatever the user and the tables, a filter that returns gives the
    rows of the query that pass a test on the row alone, in the query's
    order: it adds no row and reorders none. *)
Theorem filters_select_rows_of_the_query :
  (forall (R : Type) (cu : CurrentUser) (db : UnitTable) (depth : nat)
          (query : list R) (model : QueryFilters.Model R) (rows : list R),
      QueryFilters.apply_access_filter cu db depth query model = Ok rows ->
      exists keep, rows = filter keep query) /\
  (forall (cu : CurrentUser) (db : UnitTable) (users : list User)
          (depth : nat) (query rows : list Task.t),
      QueryFilters.apply_task_filter cu db users depth query = Ok rows ->
      exists keep, rows = filter keep query).
Proof.
  assert (Hall : forall (A : Type) (q : list A), q = filter (fun _ => true) q).
  { intros A q. induction q as [|x q IH]; simpl; [reflexivity | now f_equal]. }
  assert (Hnone : forall (A : Type) (q : list A), [] = filter (fun _ => false) q).
  { intros A q. induction q as [|x q IH]; simpl; [reflexivity | exact IH]. }
  split.
  - intros R cu db depth query model rows.
    unfold QueryFilters.apply_access_filter.
    destruct cu as [|u]; [intros [= <-]; eauto|].
    destruct (negb (is_authenticated u)); [intros [= <-]; eauto|].
    destruct (level_eqb (access_level u) EXECUTIVE); [intros [= <-]; eauto|].
    destruct (get_accessible_organizational_units depth db u) as [units|e];
      simpl; [|discriminate].
    destruct (QueryFilters.unit_ids units) as [ids|e]; simpl; [|discriminate].
    destruct (level_eqb (access_level u) INDIVIDUAL);
      destruct (QueryFilters.attr_owner_id model);
      destruct (QueryFilters.attr_organizational_unit_id model);
      intros [= <-]; eauto.
  - intros cu db users depth query rows.
    unfold QueryFilters.apply_task_filter.
    destruct cu as [|u]; [intros [= <-]; eauto|].
    destruct (negb (is_authenticated u)); [intros [= <-]; eauto|].
    destruct (level_eqb (access_level u) EXECUTIVE); [intros [= <-]; eauto|].
    destruct (level_eqb (access_level u) INDIVIDUAL); [intros [= <-]; eauto|].
    destruct (get_accessible_organizational_units depth db u) as [units|e];
      simpl; [|discriminate].
    destruct (QueryFilters.collect_user_ids users units) as [ids|e]; simpl;
      [|discriminate].
    intros [= <-]; eauto.
Qed.

Lemma filters_select_rows_of_the_query_witness :
  exists keep,
    [Seed.emir] = filter keep [Seed.emir; ana].
Proof.
  destruct filters_select_rows_of_the_query as [Haccess _].
  apply (Haccess Customer.t (LoggedIn Seed.rm1) Seed.units 5%nat
           [Seed.emir; ana] QueryFilters.CustomerModel [Seed.emir]).
  reflexivity.
Defined.

(** The user-id loop over rows of units collects the users of those
    units. *)
Lemma extend_user_ids_members users l :
  exists ids,
    AccessControl.extend_user_ids users (map Some l) = Ok ids /\
    forall k, In k ids <->
              exists v, In v users /\ user_id v = k /\
                        In (organizational_unit_id v) (map unit_id l).
Proof.
  induction l as [|x l [tl [Htl Hmem]]]; simpl.
  - exists []. split; [reflexivity|]. intros k.
    split; [intros [] | intros [v [_ [_ []]]]].
  - rewrite Htl. simpl. eexists. split; [reflexivity|]. intros k.
    rewrite in_app_iff, in_map_iff, Hmem. split.
    + intros [[v [Hid Hin]] | [v [Hin [Hid Hunit]]]].
      * apply filter_In in Hin. destruct Hin as [Hin Hu].
        apply Z.eqb_eq in Hu. exists v. auto.
      * exists v. auto.
    + intros [v [Hin [Hid [Hu | Hu]]]].
      * left. exists v. split; [exact Hid|]. apply filter_In.
        split; [exact Hin | now apply Z.eqb_eq].
      * right. exists v. auto.
Qed.

(** Both modules run the same loop. *)
Lemma collect_user_ids_is_extend users units :
  QueryFilters.collect_user_ids users units
  = AccessControl.extend_user_ids users units.
Proof.
  induction units as [|[x|] units IH]; simpl; [reflexivity | | reflexivity].
  rewrite IH. reflexivity.
Qed.

(** X13.  For an authenticated REGIONAL or BRANCH user the accessible user
    ids are the ids of the users whose unit is the user's own or one below
    it; for an authenticated INDIVIDUAL user they are the ids of all users
    of the user's own unit. *)
Theorem accessible_user_ids_are_the_subtree_users :
  forall (db : UnitTable) (rank : Z -> nat) (depth : nat)
         (users : list User) (u : User),
    is_authenticated u = true ->
    access_level u <> EXECUTIVE ->
    acyclic_by db rank ->
    (rank (organizational_unit_id u) < depth)%nat ->
    query_get db (organizational_unit_id u) <> None ->
    exists ids,
      AccessControl.get_accessible_user_ids (LoggedIn u) db depth users
      = Ok ids /\
      forall k, In k ids <->
                exists v, In v users /\ user_id v = k /\
                  (organizational_unit_id v = organizational_unit_id u \/
                   (access_level u <> INDIVIDUAL /\
                    descendant db (organizational_unit_id u)
                               (organizational_unit_id v))).
Proof.
  intros db rank depth users u Hauth Hnot_exec Hacyc Hdepth Hown.
  unfold AccessControl.get_accessible_user_ids. rewrite Hauth. simpl.
  destruct (access_level u) eqn:Hlevel; [contradiction | | |].
  - destruct (accessible_units_subtree db rank depth u) as
        [own [cs [Hacc [_ [_ Hids]]]]]; auto.
    simpl. rewrite Hacc. cbv beta iota delta [Py.bind].
    destruct (extend_user_ids_members users (own :: cs)) as [ids [Hrun Hmem]].
    exists ids. split; [exact Hrun|]. intros k. rewrite Hmem.
    split; intros [v [Hin [Hid Hu]]]; exists v; repeat split; auto.
    + apply Hids in Hu. destruct Hu; [left | right]; auto.
      split; [discriminate | auto].
    + apply Hids. destruct Hu as [Hu | [_ Hu]]; auto.
  - destruct (accessible_units_subtree db rank depth u) as
        [own [cs [Hacc [_ [_ Hids]]]]]; auto.
    simpl. rewrite Hacc. cbv beta iota delta [Py.bind].
    destruct (extend_user_ids_members users (own :: cs)) as [ids [Hrun Hmem]].
    exists ids. split; [exact Hrun|]. intros k. rewrite Hmem.
    split; intros [v [Hin [Hid Hu]]]; exists v; repeat split; auto.
    + apply Hids in Hu. destruct Hu; [left | right]; auto.
      split; [discriminate | auto].
    + apply Hids. destruct Hu as [Hu | [_ Hu]]; auto.
  - simpl. unfold get_accessible_organizational_units. rewrite Hlevel. simpl.
    destruct (query_get db (organizational_unit_id u)) as [own|] eqn:Hq;
      [|contradiction].
    apply query_get_some in Hq. destruct Hq as [_ Hown_id].
    destruct (extend_user_ids_members users [own]) as [ids [Hrun Hmem]].
    exists ids. split; [exact Hrun|]. intros k. rewrite Hmem. simpl.
    split; intros [v [Hin [Hid Hu]]]; exists v; repeat split; auto.
    + destruct Hu as [Hu | []]. left. congruence.
    + destruct Hu as [Hu | [Hne _]]; [left; congruence | contradiction].
Qed.

(** The seeded regional manager reaches the branch manager and [rm1], the
    users of the branch below the region, and the manager's own id. *)
Lemma accessible_user_ids_are_the_subtree_users_witness :
  exists ids,
    AccessControl.get_accessible_user_ids (LoggedIn Seed.regional_mgr)
      Seed.units 5 Seed.users = Ok ids /\
    ids = [2; 3; 4].
Proof.
  destruct (accessible_user_ids_are_the_subtree_users Seed.units Seed.rank 5
              Seed.users Seed.regional_mgr) as [ids [Hrun _]].
  - reflexivity.
  - discriminate.
  - exact seed_units_acyclic.
  - vm_compute; lia.
  - vm_compute; discriminate.
  - exists ids. split; [exact Hrun|].
    vm_compute in Hrun. injection Hrun as <-. reflexivity.
Defined.

(** The rows a REGIONAL or BRANCH user's task filter keeps. *)
Lemma manager_task_rows db rank depth users u query :
  is_authenticated u = true ->
  access_level u = REGIONAL \/ access_level u = BRANCH ->
  acyclic_by db rank ->
  (rank (organizational_unit_id u) < depth)%nat ->
  query_get db (organizational_unit_id u) <> None ->
  exists rows,
    QueryFilters.apply_task_filter (LoggedIn u) db users depth query = Ok rows /\
    forall t, In t rows <->
      In t query /\
      exists v, In v users /\
        (user_id v = Task.assigned_to_id t \/ user_id v = Task.assigned_by_id t) /\
        (organizational_unit_id v = organizational_unit_id u \/
         descendant db (organizational_unit_id u) (organizational_unit_id v)).
Proof.
  intros Hauth Hlevel Hacyc Hdepth Hown.
  destruct (regional_or_branch_levels _ Hlevel) as [Hexec [Hind _]].
  unfold QueryFilters.apply_task_filter. rewrite Hauth, Hexec, Hind. simpl.
  destruct (accessible_units_subtree db rank depth u) as
      [own [cs [Hacc [_ [_ Hids]]]]]; auto.
  rewrite Hacc. cbv beta iota delta [Py.bind].
  rewrite collect_user_ids_is_extend.
  destruct (extend_user_ids_members users (own :: cs)) as [ids [Hrun Hmem]].
  rewrite Hrun. eexists. split; [reflexivity|]. intros t.
  rewrite filter_In, orb_true_iff, !id_in_spec, !Hmem.
  split; intros [Hq Hv]; (split; [exact Hq|]).
  - destruct Hv as [[v [Hin [Hid Hu]]] | [v [Hin [Hid Hu]]]];
      exists v; apply Hids in Hu; auto.
  - destruct Hv as [v [Hin [[Hid | Hid] Hu]]]; apply Hids in Hu;
      [left | right]; exists v; auto.
Qed.

(** X14.  For an authenticated REGIONAL or BRANCH user the task filter
    keeps exactly the rows of the query assigned to, or assigned by, a user
    whose unit is the manager's own or one below it. *)
Theorem manager_task_scope :
  forall (db : UnitTable) (rank : Z -> nat) (depth : nat)
         (users : list User) (u : User) (query : list Task.t),
    is_authenticated u = true ->
    access_level u = REGIONAL \/ access_level u = BRANCH ->
    acyclic_by db rank ->
    (rank (organizational_unit_id u) < depth)%nat ->
    query_get db (organizational_unit_id u) <> None ->
    exists rows,
      QueryFilters.apply_task_filter (LoggedIn u) db users depth query
      = Ok rows /\
      (forall t, In t rows <->
         In t query /\
         exists v, In v users /\
           (user_id v = Task.assigned_to_id t \/
            user_id v = Task.assigned_by_id t) /\
           (organizational_unit_id v = organizational_unit_id u \/
            descendant db (organizational_unit_id u)
                       (organizational_unit_id v))) /\
      (exists ids,
          AccessControl.get_accessible_user_ids (LoggedIn u) db depth users
          = Ok ids /\
          rows = filter (fun t =>
                           QueryFilters.id_in (Task.assigned_to_id t) ids
                           || QueryFilters.id_in (Task.assigned_by_id t) ids)
                        query).
Proof.
  intros db rank depth users u query Hauth Hlevel Hacyc Hdepth Hown.
  destruct (manager_task_rows db rank depth users u query) as [rows [Hrun Hrows]];
    auto.
  exists rows. split; [exact Hrun|]. split; [exact Hrows|].
  destruct (regional_or_branch_levels _ Hlevel) as [Hexec [Hind _]].
  revert Hrun.
  unfold QueryFilters.apply_task_filter, AccessControl.get_accessible_user_ids.
  rewrite Hauth, Hexec, Hind. simpl.
  destruct (get_accessible_organizational_units depth db u) as [units|e];
    simpl; [|discriminate].
  rewrite collect_user_ids_is_extend.
  destruct (AccessControl.extend_user_ids users units) as [ids|e]; simpl;
    [|discriminate].
  intros [= <-]. exists ids. split; reflexivity.
Qed.

(** The seeded regional manager sees the task the branch manager gave to
    [rm1]. *)
Lemma manager_task_scope_witness :
  exists rows,
    QueryFilters.apply_task_filter (LoggedIn Seed.regional_mgr) Seed.units
      Seed.users 5 [Seed.task1] = Ok rows /\
    rows = [Seed.task1].
Proof.
  destruct (manager_task_scope Seed.units Seed.rank 5 Seed.users
              Seed.regional_mgr [Seed.task1]) as [rows [Hrun _]].
  - reflexivity.
  - left; reflexivity.
  - exact seed_units_acyclic.
  - vm_compute; lia.
  - vm_compute; discriminate.
  - exists rows. split; [exact Hrun|].
    vm_compute in Hrun. injection Hrun as <-. reflexivity.
Defined.

(** X15.  Scopes nest along the hierarchy: every task that the filter
    shows to an INDIVIDUAL user of the [users] table is also shown to a
    REGIONAL or BRANCH user whose unit is that user's unit or an ancestor
    of it. *)
Theorem manager_scope_contains_staff_scope :
  forall (db : UnitTable) (rank : Z -> nat) (depth : nat)
         (users : list User) (manager staff : User)
         (query staff_rows : list Task.t),
    is_authenticated manager = true ->
    access_level manager = REGIONAL \/ access_level manager = BRANCH ->
    acyclic_by db rank ->
    (rank (organizational_unit_id manager) < depth)%nat ->
    query_get db (organizational_unit_id manager) <> None ->
    access_level staff = INDIVIDUAL ->
    In staff users ->
    organizational_unit_id staff = organizational_unit_id manager \/
    descendant db (organizational_unit_id manager)
               (organizational_unit_id staff) ->
    QueryFilters.apply_task_filter (LoggedIn staff) db users depth query
    = Ok staff_rows ->
    exists manager_rows,
      QueryFilters.apply_task_filter (LoggedIn manager) db users depth query
      = Ok manager_rows /\
      incl staff_rows manager_rows.
Proof.
  intros db rank depth users manager staff query staff_rows Hauth Hlevel Hacyc
    Hdepth Hown Hstaff Hin Hbelow Hrun.
  destruct (manager_task_rows db rank depth users manager query)
    as [rows [Hmrun Hrows]]; auto.
  exists rows. split; [exact Hmrun|]. intros t Ht. apply Hrows.
  revert Hrun. unfold QueryFilters.apply_task_filter. rewrite Hstaff. simpl.
  destruct (negb (is_authenticated staff)); intros [= <-]; [destruct Ht|].
  apply filter_In in Ht. destruct Ht as [Hq Hmine]. split; [exact Hq|].
  exists staff. split; [exact Hin|]. split; [|exact Hbelow].
  apply orb_true_iff in Hmine.
  destruct Hmine as [H | H]; apply Z.eqb_eq in H; auto.
Qed.

Lemma manager_scope_contains_staff_scope_witness :
  exists manager_rows,
    QueryFilters.apply_task_filter (LoggedIn Seed.regional_mgr) Seed.units
      Seed.users 5 [Seed.task1] = Ok manager_rows /\
    incl [Seed.task1] manager_rows.
Proof.
  apply (manager_scope_contains_staff_scope Seed.units Seed.rank 5 Seed.users
           Seed.regional_mgr Seed.rm1 [Seed.task1] [Seed.task1]).
  - reflexivity.
  - left; reflexivity.
  - exact seed_units_acyclic.
  - vm_compute; lia.
  - vm_compute; discriminate.
  - reflexivity.
  - simpl; auto.
  - right. apply (descendant_child Seed.units 2 Seed.branch_centar).
    + simpl; auto.
    + reflexivity.
  - reflexivity.
Defined.

(** ** More on the audit trail and the decorators *)

(** X16.  When the audited view returns a value, a user is logged in
    afterwards and the commit goes through, the wrapper appends exactly one
    entry to [audit_logs] and returns the value.  The entry has
    [success = true] and no error message, names the user, the action and
    the resource type, and carries as resource id what
    [id or customer_id or opportunity_id] gives on the keyword arguments. *)
Theorem audited_success_is_logged :
  forall (V : Type) (action rtype : string) (f : Audit.view V)
         (kwargs : list (string * Z)) (w w1 : Audit.World) (v : V) (u : User),
    f kwargs w = (w1, Ok v) ->
    Audit.current_user w1 = LoggedIn u ->
    is_authenticated u = true ->
    Audit.commit_failure w1 = None ->
    exists entry,
      snd (Audit.audit_action V action rtype f kwargs w) = Ok v /\
      Audit.audit_logs (fst (Audit.audit_action V action rtype f kwargs w))
      = Audit.audit_logs w1 ++ [entry] /\
      Audit.success entry = true /\
      Audit.error_message entry = None /\
      Audit.user_id entry = Some (user_id u) /\
      Audit.username entry = username u /\
      Audit.action entry = action /\
      Audit.resource_type entry = rtype /\
      Audit.resource_id entry
      = or_int (or_int (Audit.kwargs_get kwargs "id")
                       (Audit.kwargs_get kwargs "customer_id"))
               (Audit.kwargs_get kwargs "opportunity_id") /\
      Audit.timestamp entry = Audit.clock w1.
Proof.
  intros V action rtype f kwargs w w1 v u Hrun Hcu Hauth Hcommit.
  unfold Audit.audit_action. rewrite Hrun.
  cbv beta iota zeta. unfold authenticated. rewrite Hcu, Hauth.
  unfold Audit.log_action. rewrite Hcommit.
  eexists. cbv beta iota zeta. simpl. repeat split.
Qed.

(** [rm1] opens customer 7: one entry, for resource 7. *)
Lemma audited_success_is_logged_witness :
  exists entry,
    Audit.audit_logs
      (fst (Audit.audit_action string "view" "customer" page_view
              [("id"%string, 7)] (seed_world (LoggedIn Seed.rm1))))
    = [] ++ [entry] /\
    Audit.success entry = true /\
    Audit.resource_id entry = Some 7.
Proof.
  destruct (audited_success_is_logged string "view" "customer" page_view
              [("id"%string, 7)] (seed_world (LoggedIn Seed.rm1))
              (seed_world (LoggedIn Seed.rm1)) "customers/view.html"%string
              Seed.rm1 eq_refl eq_refl eq_refl eq_refl)
    as [entry [_ [Hlogs [Hok [_ [_ [_ [_ [_ [Hrid _]]]]]]]]]].
  exists entry. split; [exact Hlogs|]. split; [exact Hok | exact Hrid].
Defined.

(** X17.  When the audited view ends with an error that is not an
    [Exception] (a [KeyboardInterrupt], a [SystemExit]), the [except]
    clause is passed over: with a user logged in and a working commit the
    entry written says [success = true] with no error message, and the
    error goes on to the caller. *)
Theorem audited_base_exception_is_logged_as_success :
  forall (V : Type) (action rtype : string) (f : Audit.view V)
         (kwargs : list (string * Z)) (w w1 : Audit.World) (e : exn),
    f kwargs w = (w1, Raise e) ->
    is_exception e = false ->
    authenticated (Audit.current_user w1) = true ->
    Audit.commit_failure w1 = None ->
    exists entry,
      snd (Audit.audit_action V action rtype f kwargs w) = Raise e /\
      Audit.audit_logs (fst (Audit.audit_action V action rtype f kwargs w))
      = Audit.audit_logs w1 ++ [entry] /\
      Audit.success entry = true /\
      Audit.error_message entry = None.
Proof.
  intros V action rtype f kwargs w w1 e Hrun Hexc Hauth Hcommit.
  unfold Audit.audit_action. rewrite Hrun, Hexc.
  destruct (Audit.current_user w1) as [|u] eqn:Hcu; [discriminate|].
  cbv beta iota zeta. rewrite Hauth.
  unfold Audit.log_action. rewrite Hcommit.
  eexists. cbv beta iota zeta. simpl. repeat split.
Qed.

Lemma audited_base_exception_is_logged_as_success_witness :
  exists entry,
    Audit.audit_logs
      (fst (Audit.audit_action string "view" "customer"
              (failing_view system_exit) [("id"%string, 1)]
              (seed_world (LoggedIn Seed.rm1))))
    = [] ++ [entry] /\
    Audit.success entry = true.
Proof.
  destruct (audited_base_exception_is_logged_as_success string "view"
              "customer" (failing_view system_exit) [("id"%string, 1)]
              (seed_world (LoggedIn Seed.rm1)) (seed_world (LoggedIn Seed.rm1))
              system_exit eq_refl eq_refl eq_refl eq_refl)
    as [entry [_ [Hlogs [Hok _]]]].
  exists entry. split; [exact Hlogs | exact Hok].
Defined.

(** X18.  The trail is append-only.  Whatever the view does and however it
    ends, the table [audit_logs] after the wrapper is the table the view
    left with at most one entry appended, and the wrapper leaves the
    current user, the request and the clock as the view left them. *)
Theorem audit_action_only_appends :
  forall (V : Type) (action rtype : string) (f : Audit.view V)
         (kwargs : list (string * Z)) (w : Audit.World),
    let after_view := fst (f kwargs w) in
    let after := fst (Audit.audit_action V action rtype f kwargs w) in
    (exists added,
        Audit.audit_logs after = Audit.audit_logs after_view ++ added /\
        (List.length added <= 1)%nat) /\
    Audit.current_user after = Audit.current_user after_view /\
    Audit.request after = Audit.request after_view /\
    Audit.clock after = Audit.clock after_view.
Proof.
  intros V action rtype f kwargs w. unfold Audit.audit_action.
  destruct (f kwargs w) as [w1 outcome]. cbv zeta. simpl fst at 1.
  destruct (match outcome with
            | Ok _ => (true, None)
            | Raise e =>
                if is_exception e then (false, Some (exn_str e))
                else (true, None)
            end) as [ok msg].
  assert (Hsame : (exists added,
                      Audit.audit_logs w1 = Audit.audit_logs w1 ++ added /\
                      (List.length added <= 1)%nat)).
  { exists []. rewrite app_nil_r. auto. }
  destruct (authenticated (Audit.current_user w1)); [|simpl; auto].
  destruct (Audit.current_user w1) as [|u] eqn:Hcu; [simpl; auto|].
  unfold Audit.log_action.
  destruct (Audit.commit_failure w1) as [ae|]; simpl.
  - destruct (is_exception ae); simpl; auto.
  - split; [eexists [_]; auto | auto].
Qed.

Lemma substring_prefix_length n s : (String.length (substring 0 n s) <= n)%nat.
Proof.
  revert s. induction n as [|n IH]; intros s; destruct s as [|c s]; simpl;
    try lia.
  specialize (IH s). lia.
Qed.

(** X19.  An entry that [log_action] writes keeps at most 500 characters of
    the User-Agent header; with no request it carries no address, agent,
    endpoint or method; with no user it is filed under the name anonymous
    with no user id; its timestamp is the clock's. *)
Theorem log_action_entry_context :
  forall (w : Audit.World) (user : option User) (action rtype : string)
         (rid : option Z) (descr old new : option string) (ok : bool)
         (msg : option string) (entry : Audit.AuditLog),
    snd (Audit.log_action w user action rtype rid descr old new ok msg)
    = Ok entry ->
    (forall agent, Audit.user_agent entry = Some agent ->
                   (String.length agent <= 500)%nat) /\
    (Audit.request w = None ->
     Audit.ip_address entry = None /\ Audit.user_agent entry = None /\
     Audit.endpoint entry = None /\ Audit.method entry = None) /\
    (user = None ->
     Audit.username entry = "anonymous"%string /\ Audit.user_id entry = None) /\
    Audit.timestamp entry = Audit.clock w /\
    In entry
       (Audit.audit_logs
          (fst (Audit.log_action w user action rtype rid descr old new ok msg))).
Proof.
  intros w user action rtype rid descr old new ok msg entry.
  unfold Audit.log_action.
  destruct (Audit.commit_failure w); simpl; [discriminate|].
  intros [= <-]. simpl. split; [|split; [|split; [|split]]].
  - intros agent. destruct (Audit.request w) as [r|]; [|discriminate].
    intros [= <-]. apply substring_prefix_length.
  - intros ->. auto.
  - intros ->. auto.
  - reflexivity.
  - apply in_or_app. right. left. reflexivity.
Qed.

(** A failed login, recorded with nobody logged in. *)
Lemma log_action_entry_context_witness :
  exists entry,
    snd (Audit.log_action (seed_world AnonymousUser) None "login" "session"
           None None None None false (Some "bad password"%string)) = Ok entry /\
    Audit.username entry = "anonymous"%string /\ Audit.user_id entry = None.
Proof.
  assert (H : exists entry,
             snd (Audit.log_action (seed_world AnonymousUser) None "login"
                    "session" None None None None false
                    (Some "bad password"%string)) = Ok entry)
    by (eexists; reflexivity).
  destruct H as [entry Hrun]. exists entry. split; [exact Hrun|].
  destruct (log_action_entry_context (seed_world AnonymousUser) None "login"
              "session" None None None None false
              (Some "bad password"%string) entry Hrun) as [_ [_ [Hanon _]]].
  apply Hanon. reflexivity.
Defined.

(** X20.  [sensitive_data_access] audits only what succeeded.  When the
    view raises, the wrapper ends exactly as the view did: nothing is
    logged.  When the view returns a value with a user logged in: if the
    commit goes through, one entry [view_sensitive] on [sensitive_data]
    with [success = true] is appended and the value returned; if the
    commit raises an [Exception], no entry is appended and the value is
    still returned. *)
Theorem sensitive_data_access_audits_successes_only :
  forall (V : Type) (f_name : string) (f : Audit.view V)
         (kwargs : list (string * Z)) (w w1 : Audit.World),
    (forall e, f kwargs w = (w1, Raise e) ->
       Audit.sensitive_data_access V f_name f kwargs w = (w1, Raise e)) /\
    (forall v u, f kwargs w = (w1, Ok v) ->
       Audit.current_user w1 = LoggedIn u -> is_authenticated u = true ->
       (Audit.commit_failure w1 = None ->
        exists entry,
          snd (Audit.sensitive_data_access V f_name f kwargs w) = Ok v /\
          Audit.audit_logs
            (fst (Audit.sensitive_data_access V f_name f kwargs w))
          = Audit.audit_logs w1 ++ [entry] /\
          Audit.action entry = "view_sensitive"%string /\
          Audit.resource_type entry = "sensitive_data"%string /\
          Audit.success entry = true /\
          Audit.user_id entry = Some (user_id u)) /\
       (forall audit_error,
          Audit.commit_failure w1 = Some audit_error ->
          is_exception audit_error = true ->
          snd (Audit.sensitive_data_access V f_name f kwargs w) = Ok v /\
          Audit.audit_logs
            (fst (Audit.sensitive_data_access V f_name f kwargs w))
          = Audit.audit_logs w1)).
Proof.
  intros V f_name f kwargs w w1. unfold Audit.sensitive_data_access. split.
  - intros e ->. reflexivity.
  - intros v u -> Hcu Hauth. cbv beta iota zeta.
    unfold authenticated. rewrite Hcu, Hauth. unfold Audit.log_action. split.
    + intros ->. eexists. cbv beta iota zeta. simpl. repeat split.
    + intros audit_error -> ->. simpl. auto.
Qed.

(** A view of sensitive data that fails leaves the trail empty. *)
Lemma sensitive_data_access_audits_successes_only_witness :
  Audit.sensitive_data_access string "view_customer" (failing_view key_error)
    [("id"%string, 1)] (seed_world (LoggedIn Seed.rm1))
  = (seed_world (LoggedIn Seed.rm1), Raise key_error).
Proof.
  destruct (sensitive_data_access_audits_successes_only string "view_customer"
              (failing_view key_error) [("id"%string, 1)]
              (seed_world (LoggedIn Seed.rm1))
              (seed_world (LoggedIn Seed.rm1))) as [Hraise _].
  apply Hraise. reflexivity.
Defined.








Example route_levels_convert :
  Audit.convert_levels
    [Audit.LevelName "BRANCH"; Audit.LevelName "regional";
     Audit.LevelMember EXECUTIVE]
  = Ok [BRANCH; REGIONAL; EXECUTIVE].
Proof. reflexivity. Qed.


(** ** More on the task status *)

(** X22.  The overdue flag is set exactly when the status is OVERDUE: the
    three operations on a task keep this, [complete] even establishes it,
    and [check_overdue] reports True exactly when the task is neither
    COMPLETED nor CANCELLED and its due date has passed. *)
Theorem task_operations_keep_flag_and_status_aligned :
  forall (t : Task.t) (now to : Z),
    (overdue_consistent t ->
     overdue_consistent (fst (Task.check_overdue t now)) /\
     overdue_consistent (Task.escalate t to now)) /\
    overdue_consistent (Task.complete t now) /\
    (snd (Task.check_overdue t now) = true <->
     Task.status t <> Task.COMPLETED /\ Task.status t <> Task.CANCELLED /\
     Task.due_date t < now).
Proof.
  intros t now to. unfold overdue_consistent, Task.check_overdue.
  split; [|split].
  - intros Hinv. split; [|exact Hinv].
    destruct (Task.not_closed (Task.status t)); [|exact Hinv].
    destruct (Task.due_date t <? now); [|exact Hinv].
    simpl. split; reflexivity.
  - simpl. split; discriminate.
  - destruct (Task.status t); simpl;
      try (split; [discriminate | intros [H1 [H2 _]]; congruence]);
      destruct (Task.due_date t <? now) eqn:E; simpl;
      rewrite ?Z.ltb_lt, ?Z.ltb_ge in E;
      (split; [try discriminate; intros _; repeat split; try discriminate; exact E
              | try reflexivity; intros [_ [_ H]]; lia]).
Qed.

Lemma seed_task1_consistent : overdue_consistent Seed.task1.
Proof. unfold overdue_consistent. simpl. split; discriminate. Qed.

(** The seeded task, checked a day after it fell due. *)
Lemma task_operations_keep_flag_and_status_aligned_witness :
  overdue_consistent (fst (Task.check_overdue Seed.task1 2851200)) /\
  Task.status (fst (Task.check_overdue Seed.task1 2851200)) = Task.OVERDUE.
Proof.
  destruct (task_operations_keep_flag_and_status_aligned Seed.task1 2851200 0)
    as [Hkeep _].
  destruct (Hkeep seed_task1_consistent) as [Hcheck _].
  split; [exact Hcheck | reflexivity].
Defined.

(** X23.  [check_overdue] is idempotent; once it has reported a task
    overdue, every later check reports it again and changes nothing;
    after [complete] no check changes the task; and [complete] after a
    check gives what [complete] alone gives. *)
Theorem check_overdue_and_complete_compose :
  forall (t : Task.t) (now later : Z),
    Task.check_overdue (fst (Task.check_overdue t now)) now
    = Task.check_overdue t now /\
    (snd (Task.check_overdue t now) = true -> now <= later ->
     Task.check_overdue (fst (Task.check_overdue t now)) later
     = (fst (Task.check_overdue t now), true)) /\
    Task.check_overdue (Task.complete t now) later
    = (Task.complete t now, false) /\
    Task.complete (fst (Task.check_overdue t now)) later
    = Task.complete t later.
Proof.
  intros t now later. unfold Task.check_overdue.
  destruct (Task.not_closed (Task.status t)) eqn:Hopen; simpl.
  - destruct (Task.due_date t <? now) eqn:Hdue; simpl.
    + rewrite Hdue. apply Z.ltb_lt in Hdue.
      repeat split; try reflexivity.
      intros _ Hlater.
      destruct (Task.due_date t <? later) eqn:E; [reflexivity|].
      apply Z.ltb_ge in E. lia.
    + rewrite Hopen, Hdue. repeat split; try reflexivity. discriminate.
  - rewrite Hopen. repeat split; try reflexivity. discriminate.
Qed.

Lemma check_overdue_and_complete_compose_witness :
  Task.check_overdue (fst (Task.check_overdue Seed.task1 2851200)) 2937600
  = (fst (Task.check_overdue Seed.task1 2851200), true).
Proof.
  destruct (check_overdue_and_complete_compose Seed.task1 2851200 2937600)
    as [_ [Hlater _]].
  apply Hlater; [reflexivity | lia].
Defined.

Lemma escalations_fields steps :
  forall t,
    Task.escalation_level (escalations t steps)
    = Task.escalation_level t + Z.of_nat (List.length steps) /\
    Task.status (escalations t steps) = Task.status t /\
    Task.is_overdue (escalations t steps) = Task.is_overdue t /\
    Task.assigned_to_id (escalations t steps) = Task.assigned_to_id t.
Proof.
  unfold escalations.
  induction steps as [|step steps IH]; intros t; simpl.
  - repeat split. lia.
  - destruct (IH (Task.escalate t (fst step) (snd step))) as [Hl [Hs [Ho Ha]]].
    rewrite Hl, Hs, Ho, Ha. simpl. repeat split. lia.
Qed.

(** X24.  Escalations count and touch nothing else of the status: after
    any run of [escalate] calls the escalation level has grown by the
    number of calls, the status, the overdue flag and the assignee are
    unchanged, and the task is escalated to the user of the last call. *)
Theorem escalations_count :
  forall (t : Task.t) (steps : list (Z * Z)),
    Task.escalation_level (escalations t steps)
    = Task.escalation_level t + Z.of_nat (List.length steps) /\
    Task.status (escalations t steps) = Task.status t /\
    Task.is_overdue (escalations t steps) = Task.is_overdue t /\
    Task.assigned_to_id (escalations t steps) = Task.assigned_to_id t /\
    (forall earlier to now,
        steps = earlier ++ [(to, now)] ->
        Task.escalated_to_id (escalations t steps) = Some to /\
        Task.escalation_date (escalations t steps) = Some now).
Proof.
  intros t steps.
  destruct (escalations_fields steps t) as [Hl [Hs [Ho Ha]]].
  repeat split; auto; subst steps; unfold escalations;
    rewrite fold_left_app; reflexivity.
Qed.

(** Two escalations of the seeded task, the second to user 2. *)
Lemma escalations_count_witness :
  Task.escalated_to_id (escalations Seed.task1 [(3, 100); (2, 200)]) = Some 2 /\
  Task.escalation_date (escalations Seed.task1 [(3, 100); (2, 200)]) = Some 200.
Proof.
  destruct (escalations_count Seed.task1 [(3, 100); (2, 200)])
    as [_ [_ [_ [_ Hlast]]]].
  apply (Hlast [(3, 100)] 2 200). reflexivity.
Defined.

(** ** More on the opportunity pipeline *)

(** X25.  What [advance_stage] to a stage with a table probability [p]
    other than zero does depends on the type of the amount.  A [Decimal]
    amount other than zero (a loaded row) makes it raise [TypeError] with
    only the stage and the probability assigned: no expected revenue, and
    for WON no closing; [mark_won] raises the same way.  A [float] amount
    other than zero makes it return with the expected revenue the binary64
    product of the amount and the binary64 quotient [p / 100]; an [int]
    amount is converted to [float] first. *)
Theorem advance_stage_revenue_by_amount_type :
  forall (o : Opportunity.t) (now : Z),
    (forall S p q,
        Opportunity.stage_probabilities S = Some p -> p <> 0 ->
        Opportunity.amount o = Some (PyDecimal q) -> ~ (q == 0)%Q ->
        Opportunity.advance_stage o S now
        = (Opportunity.set_probability (Some p) (Opportunity.set_stage S o),
           Raise decimal_float_error)) /\
    (forall q v,
        Opportunity.amount o = Some (PyDecimal q) -> ~ (q == 0)%Q ->
        Opportunity.mark_won o v now
        = (Opportunity.set_probability (Some 100)
             (Opportunity.set_stage Opportunity.WON o),
           Raise decimal_float_error)) /\
    (forall S p x,
        Opportunity.stage_probabilities S = Some p -> p <> 0 ->
        Opportunity.amount o = Some (PyFloat x) ->
        PrimFloat.eqb x PrimFloat.zero = false ->
        exists d,
          int_true_div p 100 = Ok d /\
          Opportunity.advance_stage o S now
          = (Opportunity.close_if_final S now
               (Opportunity.set_expected_revenue
                  (Some (PyFloat (PrimFloat.mul x d)))
                  (Opportunity.set_probability (Some p)
                     (Opportunity.set_stage S o))), Ok tt)) /\
    (forall S p n y,
        Opportunity.stage_probabilities S = Some p -> p <> 0 ->
        Opportunity.amount o = Some (PyInt n) -> n <> 0 ->
        float_of_int n = Ok y ->
        exists d,
          int_true_div p 100 = Ok d /\
          Opportunity.advance_stage o S now
          = (Opportunity.close_if_final S now
               (Opportunity.set_expected_revenue
                  (Some (PyFloat (PrimFloat.mul y d)))
                  (Opportunity.set_probability (Some p)
                     (Opportunity.set_stage S o))), Ok tt)).
Proof.
  intros o now. split; [|split; [|split]].
  - intros S p q. apply advance_stage_decimal_raises.
  - intros q v. apply mark_won_decimal_raises.
  - intros S p x Hp Hp0 Ha Hx.
    destruct (table_quotient S p Hp) as [d Hd]. exists d. split; [exact Hd|].
    rewrite (advance_stage_multiplies o S now (PyFloat x) p Hp Hp0 Ha).
    + unfold Opportunity.revenue_of. rewrite Hd. reflexivity.
    + simpl. now rewrite Hx.
  - intros S p n y Hp Hp0 Ha Hn Hy.
    destruct (table_quotient S p Hp) as [d Hd]. exists d. split; [exact Hd|].
    rewrite (advance_stage_multiplies o S now (PyInt n) p Hp Hp0 Ha).
    + unfold Opportunity.revenue_of. rewrite Hd. simpl. rewrite Hy. reflexivity.
    + simpl. apply Z.eqb_neq in Hn. now rewrite Hn.
Qed.

(** The loaded seeded opportunity raises on CLOSING and keeps its expected
    revenue of 90000 and its active flag; an amount of 3.0 advanced to
    IDENTIFICATION gets 0x1.3333333333334p-2, which prints as
    0.30000000000000004, and not the binary64 nearest to 0.3,
    0x1.3333333333333p-2. *)
Lemma advance_stage_revenue_by_amount_type_witness :
  (snd (Opportunity.advance_stage Seed.opp1_stored Opportunity.CLOSING 100)
   = Raise decimal_float_error /\
   Opportunity.probability
     (fst (Opportunity.advance_stage Seed.opp1_stored Opportunity.CLOSING 100))
   = Some 80 /\
   Opportunity.expected_revenue
     (fst (Opportunity.advance_stage Seed.opp1_stored Opportunity.CLOSING 100))
   = Some (PyDecimal (90000 # 1))) /\
  (Opportunity.is_active
     (fst (Opportunity.mark_won Seed.opp1_stored None 100)) = true /\
   Opportunity.stage
     (fst (Opportunity.mark_won Seed.opp1_stored None 100)) = Opportunity.WON) /\
  (exists r,
      Opportunity.expected_revenue
        (fst (Opportunity.advance_stage three_float_opp
                Opportunity.IDENTIFICATION 100)) = Some (PyFloat r) /\
      PrimFloat.eqb r 0x1.3333333333334p-2%float = true /\
      PrimFloat.eqb r 0x1.3333333333333p-2%float = false).
Proof.
  destruct (advance_stage_revenue_by_amount_type Seed.opp1_stored 100)
    as [Hdec [Hwon _]].
  destruct (advance_stage_revenue_by_amount_type three_float_opp 100)
    as [_ [_ [Hfloat _]]].
  split; [|split].
  - rewrite (Hdec Opportunity.CLOSING 80 (150000 # 1));
      [repeat split | reflexivity | discriminate | reflexivity
       | vm_compute; discriminate].
  - rewrite (Hwon (150000 # 1) None);
      [split; reflexivity | reflexivity | vm_compute; discriminate].
  - destruct (Hfloat Opportunity.IDENTIFICATION 10 3%float)
      as [d [Hd Hrun]];
      [reflexivity | discriminate | reflexivity | reflexivity |].
    rewrite Hrun. simpl. eexists. split; [reflexivity|].
    assert (d = SF2Prim (SFdiv prec emax (exact_int 10) (exact_int 100)))
      as -> by (vm_compute in Hd; injection Hd as <-; vm_compute; reflexivity).
    split; vm_compute; reflexivity.
Defined.

(** The closing fields in the state [advance_stage] leaves, returning or
    raising. *)
Lemma advance_stage_closing_fields o S now :
  closed_stage S = false ->
  Opportunity.won_date (fst (Opportunity.advance_stage o S now))
  = Opportunity.won_date o /\
  Opportunity.lost_date (fst (Opportunity.advance_stage o S now))
  = Opportunity.lost_date o /\
  Opportunity.actual_close_date (fst (Opportunity.advance_stage o S now))
  = Opportunity.actual_close_date o /\
  Opportunity.actual_revenue (fst (Opportunity.advance_stage o S now))
  = Opportunity.actual_revenue o /\
  Opportunity.lost_reason (fst (Opportunity.advance_stage o S now))
  = Opportunity.lost_reason o.
Proof.
  intros Hopen.
  destruct (advance_stage_cases o S now) as [[er ->] | [p [e [_ ->]]]].
  - destruct S; try discriminate; simpl; auto.
  - simpl; auto.
Qed.

(** X26.  [advance_stage] never clears what a closing wrote: moving to a
    stage other than WON or LOST keeps [won_date], [lost_date],
    [actual_close_date], [actual_revenue] and [lost_reason], whether the
    call returns or raises; and when [mark_won] returns, a following
    [mark_lost] returns too and the opportunity ends in LOST carrying both
    dates and the revenue of the win. *)
Theorem closing_data_persists :
  forall (o : Opportunity.t) (S : Opportunity.OpportunityStage) (now : Z),
    (closed_stage S = false ->
     Opportunity.won_date (fst (Opportunity.advance_stage o S now))
     = Opportunity.won_date o /\
     Opportunity.lost_date (fst (Opportunity.advance_stage o S now))
     = Opportunity.lost_date o /\
     Opportunity.actual_close_date (fst (Opportunity.advance_stage o S now))
     = Opportunity.actual_close_date o /\
     Opportunity.actual_revenue (fst (Opportunity.advance_stage o S now))
     = Opportunity.actual_revenue o /\
     Opportunity.lost_reason (fst (Opportunity.advance_stage o S now))
     = Opportunity.lost_reason o) /\
    (snd (Opportunity.mark_won o None now) = Ok tt ->
     forall later reason notes competitor,
       let lost := Opportunity.mark_lost (fst (Opportunity.mark_won o None now))
                     reason notes competitor later in
       snd lost = Ok tt /\
       Opportunity.stage (fst lost) = Opportunity.LOST /\
       Opportunity.won_date (fst lost) = Some now /\
       Opportunity.lost_date (fst lost) = Some later /\
       Opportunity.actual_revenue (fst lost) = Opportunity.amount o /\
       Opportunity.lost_reason (fst lost) = Some reason).
Proof.
  intros o S now. split; [apply advance_stage_closing_fields|].
  intros Hret later reason notes competitor lost. subst lost.
  assert (Hwon : exists er,
             fst (Opportunity.mark_won o None now)
             = Opportunity.close_won now
                 (Opportunity.set_expected_revenue er
                    (Opportunity.set_probability (Some 100)
                       (Opportunity.set_stage Opportunity.WON o)))).
  { revert Hret. unfold Opportunity.mark_won.
    destruct (advance_stage_cases o Opportunity.WON now)
      as [[er ->] | [p [e [_ ->]]]]; simpl; [|discriminate].
    intros _. exists er. reflexivity. }
  destruct Hwon as [er ->].
  set (w := Opportunity.close_won now _).
  destruct (mark_lost_returns w reason notes competitor later) as [Hok [Hs _]].
  split; [exact Hok|]. split; [exact Hs|].
  unfold Opportunity.mark_lost.
  destruct (advance_stage_cases w Opportunity.LOST later)
    as [[er' Hrun] | [p [e [_ Hrun]]]]; rewrite Hrun; simpl; auto.
  exfalso. revert Hok. unfold Opportunity.mark_lost. rewrite Hrun. discriminate.
Qed.

(** The seeded opportunity as [app.py] builds it: won and then moved to
    POST_SALE it keeps its win, and won and then lost it carries both
    dates. *)
Lemma closing_data_persists_witness :
  (Opportunity.won_date
     (fst (Opportunity.advance_stage won_opp1 Opportunity.POST_SALE 200))
   = Opportunity.won_date won_opp1 /\
   Opportunity.actual_revenue
     (fst (Opportunity.advance_stage won_opp1 Opportunity.POST_SALE 200))
   = Opportunity.actual_revenue won_opp1) /\
  (Opportunity.won_date
     (fst (Opportunity.mark_lost (fst (Opportunity.mark_won Seed.opp1 None 100))
             Opportunity.PRICE None None 200)) = Some 100 /\
   Opportunity.lost_date
     (fst (Opportunity.mark_lost (fst (Opportunity.mark_won Seed.opp1 None 100))
             Opportunity.PRICE None None 200)) = Some 200).
Proof.
  split.
  - destruct (closing_data_persists won_opp1 Opportunity.POST_SALE 200)
      as [Hkeep _].
    destruct (Hkeep eq_refl) as [Hw [_ [_ [Hr _]]]].
    split; [exact Hw | exact Hr].
  - destruct (closing_data_persists Seed.opp1 Opportunity.POST_SALE 100)
      as [_ Hboth].
    destruct (Hboth eq_refl 200 Opportunity.PRICE None None)
      as [_ [_ [Hw [Hl _]]]].
    split; [exact Hw | exact Hl].
Defined.

(** ** Lifecycle operations and access *)

(** The three attributes the access checks read, in the state
    [advance_stage] leaves, returning or raising. *)
Lemma advance_stage_keeps_scope o S now :
  Opportunity.organizational_unit_id (fst (Opportunity.advance_stage o S now))
  = Opportunity.organizational_unit_id o /\
  Opportunity.owner_id (fst (Opportunity.advance_stage o S now))
  = Opportunity.owner_id o /\
  Opportunity.customer_id (fst (Opportunity.advance_stage o S now))
  = Opportunity.customer_id o.
Proof.
  destruct (advance_stage_cases o S now) as [[er ->] | [p [e [_ ->]]]];
    [destruct S|]; simpl; auto.
Qed.

Lemma mark_won_keeps_scope o v now :
  Opportunity.organizational_unit_id (fst (Opportunity.mark_won o v now))
  = Opportunity.organizational_unit_id o /\
  Opportunity.owner_id (fst (Opportunity.mark_won o v now))
  = Opportunity.owner_id o /\
  Opportunity.customer_id (fst (Opportunity.mark_won o v now))
  = Opportunity.customer_id o.
Proof.
  pose proof (advance_stage_keeps_scope o Opportunity.WON now) as H.
  unfold Opportunity.mark_won.
  destruct (Opportunity.advance_stage o Opportunity.WON now) as [o' [[]|e]];
    simpl in *; [destruct (truthy_number v)|]; simpl; exact H.
Qed.

Lemma mark_lost_keeps_scope o reason notes competitor now :
  Opportunity.organizational_unit_id
    (fst (Opportunity.mark_lost o reason notes competitor now))
  = Opportunity.organizational_unit_id o /\
  Opportunity.owner_id
    (fst (Opportunity.mark_lost o reason notes competitor now))
  = Opportunity.owner_id o /\
  Opportunity.customer_id
    (fst (Opportunity.mark_lost o reason notes competitor now))
  = Opportunity.customer_id o.
Proof.
  pose proof (advance_stage_keeps_scope o Opportunity.LOST now) as H.
  unfold Opportunity.mark_lost.
  destruct (Opportunity.advance_stage o Opportunity.LOST now) as [o' [[]|e]];
    simpl in *; exact H.
Qed.

(** X27.  Lifecycle operations move no record between scopes: advancing a
    customer's stage or recomputing its score changes no customer check,
    advancing, winning or losing an opportunity, returning or raising,
    leaves its approval check, its owner, its customer and its unit as
    they were, and completing, checking or escalating a
    task leaves the two user ids the task filter looks at. *)
Theorem lifecycle_operations_keep_access :
  forall (cu : CurrentUser) (db : UnitTable) (depth : nat) (now : Z),
    (forall c S opps,
        let moved := Customer.advance_stage c S now in
        let scored := fst (Customer.calculate_qualification_score opps now c) in
        AccessControl.can_view_customer cu db depth moved
        = AccessControl.can_view_customer cu db depth c /\
        AccessControl.can_delete_customer cu db depth moved
        = AccessControl.can_delete_customer cu db depth c /\
        AccessControl.can_view_customer cu db depth scored
        = AccessControl.can_view_customer cu db depth c /\
        AccessControl.can_delete_customer cu db depth scored
        = AccessControl.can_delete_customer cu db depth c) /\
    (forall o S v reason notes competitor,
        let advanced := fst (Opportunity.advance_stage o S now) in
        let won := fst (Opportunity.mark_won o v now) in
        let lost := fst (Opportunity.mark_lost o reason notes competitor now) in
        (AccessControl.can_approve_opportunity cu db depth advanced
         = AccessControl.can_approve_opportunity cu db depth o /\
         Opportunity.owner_id advanced = Opportunity.owner_id o /\
         Opportunity.customer_id advanced = Opportunity.customer_id o /\
         Opportunity.organizational_unit_id advanced
         = Opportunity.organizational_unit_id o) /\
        (AccessControl.can_approve_opportunity cu db depth won
         = AccessControl.can_approve_opportunity cu db depth o /\
         Opportunity.owner_id won = Opportunity.owner_id o /\
         Opportunity.customer_id won = Opportunity.customer_id o /\
         Opportunity.organizational_unit_id won
         = Opportunity.organizational_unit_id o) /\
        (AccessControl.can_approve_opportunity cu db depth lost
         = AccessControl.can_approve_opportunity cu db depth o /\
         Opportunity.owner_id lost = Opportunity.owner_id o /\
         Opportunity.customer_id lost = Opportunity.customer_id o /\
         Opportunity.organizational_unit_id lost
         = Opportunity.organizational_unit_id o)) /\
    (forall t to,
        Task.assigned_to_id (fst (Task.check_overdue t now))
        = Task.assigned_to_id t /\
        Task.assigned_by_id (fst (Task.check_overdue t now))
        = Task.assigned_by_id t /\
        Task.assigned_to_id (Task.complete t now) = Task.assigned_to_id t /\
        Task.assigned_by_id (Task.complete t now) = Task.assigned_by_id t /\
        Task.assigned_to_id (Task.escalate t to now) = Task.assigned_to_id t /\
        Task.assigned_by_id (Task.escalate t to now) = Task.assigned_by_id t).
Proof.
  intros cu db depth now. split; [|split].
  - intros c S opps moved scored. subst moved scored.
    unfold AccessControl.can_view_customer, AccessControl.can_delete_customer,
      AccessControl.can_access_customer.
    assert (Hm : Customer.owner_id (Customer.advance_stage c S now)
                 = Customer.owner_id c /\
                 Customer.organizational_unit_id (Customer.advance_stage c S now)
                 = Customer.organizational_unit_id c)
      by (destruct S; split; reflexivity).
    destruct Hm as [-> ->]. simpl. repeat split.
  - intros o S v reason notes competitor advanced won lost.
    subst advanced won lost. unfold AccessControl.can_approve_opportunity.
    destruct (advance_stage_keeps_scope o S now) as [-> [-> ->]].
    destruct (mark_won_keeps_scope o v now) as [-> [-> ->]].
    destruct (mark_lost_keeps_scope o reason notes competitor now)
      as [-> [-> ->]].
    repeat split.
  - intros t to. unfold Task.check_overdue.
    destruct (Task.not_closed (Task.status t));
      [destruct (Task.due_date t <? now)|]; simpl; repeat split.
Qed.

(** ** More on the qualification score *)

Lemma active_count_cons opps c o :
  Customer.active_opportunity_count (o :: opps) c
  = Customer.active_opportunity_count opps c
    + (if (Opportunity.customer_id o =? Customer.id c)
          && Opportunity.is_active o then 1 else 0).
Proof.
  unfold Customer.active_opportunity_count, Customer.opportunities. simpl.
  destruct (Opportunity.customer_id o =? Customer.id c); simpl; [|lia].
  destruct (Opportunity.is_active o); simpl; lia.
Qed.

Lemma active_count_nonneg opps c :
  0 <= Customer.active_opportunity_count opps c.
Proof. unfold Customer.active_opportunity_count. lia. Qed.

(** X28.  The score depends on the opportunities only through whether the
    customer has an active one: an opportunity of another customer or an
    inactive one changes nothing, nor does a further active one once there
    is one; and the stored score is no input, so computing twice gives the
    same customer and score. *)
Theorem qualification_score_inputs :
  forall (opps : list Opportunity.t) (now : Z) (c : Customer.t)
         (o : Opportunity.t),
    (Opportunity.customer_id o <> Customer.id c \/
     Opportunity.is_active o = false \/
     0 < Customer.active_opportunity_count opps c ->
     snd (Customer.calculate_qualification_score (o :: opps) now c)
     = snd (Customer.calculate_qualification_score opps now c)) /\
    Customer.calculate_qualification_score opps now
      (fst (Customer.calculate_qualification_score opps now c))
    = Customer.calculate_qualification_score opps now c.
Proof.
  intros opps now c o. split; [|reflexivity].
  intros Hcase. rewrite !score_as_sum. unfold spec_score.
  assert (Hsame : (1 <=? Customer.active_opportunity_count (o :: opps) c)
                  = (1 <=? Customer.active_opportunity_count opps c)).
  { rewrite active_count_cons.
    pose proof (active_count_nonneg opps c) as Hnn.
    destruct ((Opportunity.customer_id o =? Customer.id c)
              && Opportunity.is_active o) eqn:E.
    - apply andb_true_iff in E. destruct E as [E1 E2]. apply Z.eqb_eq in E1.
      destruct Hcase as [H | [H | H]]; [contradiction | congruence|].
      destruct (1 <=? Customer.active_opportunity_count opps c + 1) eqn:A,
               (1 <=? Customer.active_opportunity_count opps c) eqn:B;
        rewrite ?Z.leb_le, ?Z.leb_gt in *; try reflexivity; lia.
    - rewrite Z.add_0_r. reflexivity. }
  rewrite Hsame. reflexivity.
Qed.

(** The opportunity on the second customer adds nothing to the first
    customer's score. *)
Lemma qualification_score_inputs_witness :
  snd (Customer.calculate_qualification_score [opp_on_ana; Seed.opp1] 2592000
         Seed.emir)
  = snd (Customer.calculate_qualification_score [Seed.opp1] 2592000 Seed.emir).
Proof.
  destruct (qualification_score_inputs [Seed.opp1] 2592000 Seed.emir opp_on_ana)
    as [Hsame _].
  apply Hsame. left. discriminate.
Defined.

Lemma contact_points_decay d d' :
  d <= d' -> contact_points (Some d') <= contact_points (Some d).
Proof.
  intros Hle. simpl.
  destruct (d <? 7) eqn:A, (d' <? 7) eqn:B, (d <? 30) eqn:C, (d' <? 30) eqn:D;
    rewrite ?Z.ltb_lt, ?Z.ltb_ge in *; lia.
Qed.

(** X29.  Time alone never raises a score: with the customer and the
    opportunities unchanged, the score computed at a later instant is at
    most the score computed earlier. *)
Theorem qualification_score_decays :
  forall (opps : list Opportunity.t) (c : Customer.t) (now later : Z),
    now <= later ->
    snd (Customer.calculate_qualification_score opps later c)
    <= snd (Customer.calculate_qualification_score opps now c).
Proof.
  intros opps c now later Hle. rewrite !score_as_sum. unfold spec_score.
  assert (Hcontact : contact_points (days_since_contact later c)
                     <= contact_points (days_since_contact now c)).
  { unfold days_since_contact.
    destruct (Customer.last_contact_date c) as [last|]; [|simpl; lia].
    apply contact_points_decay. unfold Customer.timedelta_days.
    apply Z.div_le_mono; lia. }
  lia.
Qed.

(** A customer contacted at instant 0 scores 20 for the contact after one
    day and 10 after ten days. *)
Lemma qualification_score_decays_witness :
  snd (Customer.calculate_qualification_score [] 864000
         (Customer.mk 9 None None None Customer.LEAD None None None 4 3
            None None None None (Some 0)))
  <= snd (Customer.calculate_qualification_score [] 86400
            (Customer.mk 9 None None None Customer.LEAD None None None 4 3
               None None None None (Some 0))).
Proof.
  apply (qualification_score_decays [] _ 86400 864000). lia.
Defined.

(** ** The unit list and the unit check *)

(** X30.  For every user, the list of accessible units and the per-unit
    check agree on the rows of the table: the list returns, holds rows of
    the table only, and names a row's id exactly when
    [can_access_organizational_unit] allows that id. *)
Theorem accessible_units_agree_with_unit_check :
  forall (db : UnitTable) (rank : Z -> nat) (depth : nat) (u : User),
    acyclic_by db rank ->
    (rank (organizational_unit_id u) < depth)%nat ->
    query_get db (organizational_unit_id u) <> None ->
    exists units,
      get_accessible_organizational_units depth db u = Ok (map Some units) /\
      (forall x, In x units -> In x db) /\
      forall r, In r db ->
        (In (unit_id r) (map unit_id units) <->
         can_access_organizational_unit depth db u (unit_id r) = Ok true).
Proof.
  intros db rank depth u Hacyc Hdepth Hown.
  assert (Hmanager :
    access_level u = REGIONAL \/ access_level u = BRANCH ->
    exists units,
      get_accessible_organizational_units depth db u = Ok (map Some units) /\
      (forall x, In x units -> In x db) /\
      forall r, In r db ->
        (In (unit_id r) (map unit_id units) <->
         can_access_organizational_unit depth db u (unit_id r) = Ok true)).
  { intros Hlevel.
    destruct (regional_or_branch_levels _ Hlevel) as [Hexec [_ Hrb]].
    destruct (query_get db (organizational_unit_id u)) as [own|] eqn:Hq;
      [|contradiction].
    destruct (query_get_some _ _ _ Hq) as [Hown_in Hown_id].
    destruct (get_all_children_total db rank Hacyc depth own) as [cs Hcs];
      [rewrite Hown_id; exact Hdepth|].
    exists (own :: cs). split; [|split].
    - unfold get_accessible_organizational_units.
      rewrite Hexec, Hrb, Hq, Hcs. reflexivity.
    - intros x [<- | Hx]; [exact Hown_in|].
      exact (get_all_children_rows db depth own cs Hcs x Hx).
    - intros r Hr.
      destruct (can_access_unit_subtree db rank depth u (unit_id r)
                  Hlevel Hacyc Hdepth) as [v [Hrun Hiff]];
        [rewrite Hq; discriminate|].
      rewrite Hrun.
      pose proof (get_all_children_members _ _ _ _ Hcs (unit_id r)) as Hmem.
      rewrite Hown_id in Hmem. simpl. rewrite in_map_iff.
      split.
      + intros Hin. f_equal. apply Hiff.
        destruct Hin as [Hk | [x [Hx Hxin]]]; [left; congruence|].
        right. apply Hmem. exists x. auto.
      + intros [= ->]. destruct (proj1 Hiff eq_refl) as [Hk | Hd].
        * left. congruence.
        * right. apply Hmem in Hd. destruct Hd as [x [Hxin Hx]].
          exists x. auto. }
  destruct (access_level u) eqn:Hlevel; auto.
  - exists db. unfold get_accessible_organizational_units,
      can_access_organizational_unit. rewrite Hlevel. simpl.
    split; [reflexivity|]. split; [auto|].
    intros r Hr. split; [reflexivity | intros _; now apply in_map].
  - unfold get_accessible_organizational_units, can_access_organizational_unit.
    rewrite Hlevel. simpl.
    destruct (query_get db (organizational_unit_id u)) as [own|] eqn:Hq;
      [|contradiction].
    apply query_get_some in Hq. destruct Hq as [Hown_in Hown_id].
    exists [own]. split; [reflexivity|]. split.
    + intros x [<- | []]. exact Hown_in.
    + intros r Hr. simpl. rewrite Hown_id.
      destruct (organizational_unit_id u =? unit_id r) eqn:E.
      * apply Z.eqb_eq in E. split; auto.
      * apply Z.eqb_neq in E. split; [intros [H | []]; contradiction|].
        discriminate.
Qed.

(** The seeded branch manager: the branch, and no unit above it. *)
Lemma accessible_units_agree_with_unit_check_witness :
  exists units,
    get_accessible_organizational_units 5 Seed.units Seed.branch_mgr
    = Ok (map Some units) /\
    (forall x, In x units -> In x Seed.units) /\
    forall r, In r Seed.units ->
      (In (unit_id r) (map unit_id units) <->
       can_access_organizational_unit 5 Seed.units Seed.branch_mgr (unit_id r)
       = Ok true).
Proof.
  apply (accessible_units_agree_with_unit_check Seed.units Seed.rank 5
           Seed.branch_mgr).
  - exact seed_units_acyclic.
  - vm_compute; lia.
  - vm_compute; discriminate.
Defined.
